(** * Token emission engine: [EmissionSystem.process_snapshot]

    A shallow embedding of [src/pl_aa_emissions_calc.py], class
    [EmissionSystem], and the properties of its allocation-and-rollover
    step.

    Modelling choices:
    - Python dictionaries are stdpp finite maps ([gmap string _]); the key
      set built with [set(...) | set(...)] is a [gset string].  Equality of
      Python dictionaries ignores insertion order, and so does [gmap]
      equality.
    - Numbers are exact rationals in canonical form ([Qc]).  Python's
      floating-point rounding is not modelled: every arithmetic statement
      below is a statement under exact arithmetic.
    - A pillar's configuration [{"weight": w, "emission_pct": e}] is a
      record with these two fields.
    - Operations that raise in Python ([d[k]] on a missing key, [/] by
      zero) are modelled in an exception monad [Exc]; [d.get(k, x)] is the
      total [default x (d !! k)]. *)

From Stdlib Require Import QArith Qcanon Ascii.
From stdpp Require Import base option numbers list strings gmap fin_maps.

Local Open Scope Qc_scope.

(** ** Exceptions *)

Inductive PyError : Type :=
  | KeyError (key : string)
  | ZeroDivisionError.

Inductive Exc (A : Type) : Type :=
  | Ok (a : A)
  | Raise (e : PyError).

Arguments Ok {A} a.
Arguments Raise {A} e.

Global Instance Exc_ret : MRet Exc := λ A a, Ok a.
Global Instance Exc_bind : MBind Exc := λ A B f m,
  match m with
  | Ok a => f a
  | Raise e => Raise e
  end.

(** [for x in xs: body], threading the loop state [s]. *)
Fixpoint for_each {A S : Type} (xs : list A) (body : A → S → Exc S) (s : S)
    : Exc S :=
  match xs with
  | [] => Ok s
  | x :: xs' => s' ← body x s; for_each xs' body s'
  end.

(** [d[k]] as an expression. *)
Definition getitem {V : Type} (d : gmap string V) (k : string) : Exc V :=
  match d !! k with
  | Some v => Ok v
  | None => Raise (KeyError k)
  end.

(** [a / b] on numbers. *)
Definition truediv (a b : Qc) : Exc Qc :=
  if decide (b = 0) then Raise ZeroDivisionError else Ok (a / b).

(** [d.keys()] and [d.items()], in the map's iteration order. *)
Definition keys {V : Type} (d : gmap string V) : list string :=
  (map_to_list d).*1.
Definition items {V : Type} (d : gmap string V) : list (string * V) :=
  map_to_list d.

(** ** Data model *)

Record PillarConfig : Type := {
  weight : Qc;
  emission_pct : Qc
}.

(** user -> pillar -> points (or tokens) *)
Abbreviation Points := (gmap string (gmap string Qc)).
(** user -> pillar -> claim flag *)
Abbreviation Claims := (gmap string (gmap string bool)).

Record EmissionSystem : Type := {
  total_emissions : Qc;
  pillar_configs : gmap string PillarConfig;
  rollover_points : Points
}.

(** The dictionary returned by [process_snapshot]. *)
Record SnapshotResult : Type := {
  user_tokens : Points;
  pillar_totals : gmap string Qc;
  current_points : Points;
  result_rollover_points : Points
}.

Global Instance PyError_eq_dec : EqDecision PyError.
Proof. solve_decision. Defined.
Global Instance Exc_eq_dec {A : Type} `{EqDecision A} : EqDecision (Exc A).
Proof. solve_decision. Defined.
Global Instance PillarConfig_eq_dec : EqDecision PillarConfig.
Proof. solve_decision. Defined.
Global Instance EmissionSystem_eq_dec : EqDecision EmissionSystem.
Proof. solve_decision. Defined.
Global Instance SnapshotResult_eq_dec : EqDecision SnapshotResult.
Proof. solve_decision. Defined.

(** [EmissionSystem.__init__] *)
Definition init (total_emissions : Qc)
    (pillar_configs : gmap string PillarConfig) : EmissionSystem :=
  {| total_emissions := total_emissions;
     pillar_configs := pillar_configs;
     rollover_points := ∅ |}.

(** [claim_decisions.get(user, {}).get(pillar, False)] *)
Definition claimed (claim_decisions : Claims) (user pillar : string) : bool :=
  default false (default ∅ (claim_decisions !! user) !! pillar).

(** ** The stages of [process_snapshot] *)

(** Lines 17-26: combine rollover points and new contributions.  The inner
    dictionary [current_points[user]] is filled pillar by pillar and stored
    under [user]. *)
Definition combine_points (self : EmissionSystem) (new_contributions : Points)
    : Points :=
  let all_users : gset string :=
    dom (rollover_points self) ∪ dom new_contributions in
  foldl (λ current_points user,
    let prev := default ∅ (rollover_points self !! user) in
    let new := default ∅ (new_contributions !! user) in
    <[user :=
        foldl (λ row pillar,
          let prev_points := default 0 (prev !! pillar) in
          let new_points := default 0 (new !! pillar) in
          <[pillar := prev_points + new_points]> row)
        ∅ (keys (pillar_configs self))]> current_points)
  ∅ (elements all_users).

(** Lines 29-32: total points per pillar; [pillar_totals[pillar] += points]
    reads [pillar_totals[pillar]] and raises when the key is missing. *)
Definition compute_pillar_totals (self : EmissionSystem)
    (current_points : Points) : Exc (gmap string Qc) :=
  let pillar_totals : gmap string Qc :=
    foldl (λ d pillar, <[pillar := 0]> d) ∅ (keys (pillar_configs self)) in
  for_each (items current_points) (λ '(_, pts) pillar_totals,
    for_each (items pts) (λ '(pillar, points) pillar_totals,
      total ← getitem pillar_totals pillar;
      mret (<[pillar := total + points]> pillar_totals))
    pillar_totals)
  pillar_totals.

(** Lines 35-37: the token budget of each pillar. *)
Definition allocate_tokens (self : EmissionSystem) : gmap string Qc :=
  foldl (λ tokens_allocated '(pillar, config),
    <[pillar := total_emissions self * (weight config * emission_pct config)]>
      tokens_allocated)
  ∅ (items (pillar_configs self)).

(** Lines 40-50: tokens per user, paid out only on a claim. *)
Definition calculate_user_tokens (current_points : Points)
    (pillar_totals tokens_allocated : gmap string Qc)
    (claim_decisions : Claims) : Exc Points :=
  for_each (items current_points) (λ '(user, pts) user_tokens,
    row ← for_each (items pts) (λ '(pillar, points) row,
      total_points ← getitem pillar_totals pillar;
      share ← (if decide (0 < total_points)
               then truediv points total_points else mret 0);
      budget ← getitem tokens_allocated pillar;
      let tokens := budget * share in
      if claimed claim_decisions user pillar
      then mret (<[pillar := tokens]> row)
      else mret (<[pillar := 0]> row))
    ∅;
    mret (<[user := row]> user_tokens))
  ∅.

(** Lines 53-60: reset the points of a claimed pillar, keep the others. *)
Definition update_rollover (current_points : Points)
    (claim_decisions : Claims) : Points :=
  foldl (λ new_rollover '(user, pts),
    <[user :=
        foldl (λ row '(pillar, points),
          if claimed claim_decisions user pillar
          then <[pillar := 0]> row
          else <[pillar := points]> row)
        ∅ (items pts)]> new_rollover)
  ∅ (items current_points).

(** [EmissionSystem.process_snapshot]: the returned dictionary and the
    engine after [self.rollover_points = new_rollover]. *)
Definition process_snapshot (self : EmissionSystem)
    (new_contributions : Points) (claim_decisions : Claims)
    : Exc (SnapshotResult * EmissionSystem) :=
  let current_points := combine_points self new_contributions in
  pillar_totals ← compute_pillar_totals self current_points;
  let tokens_allocated := allocate_tokens self in
  user_tokens ← calculate_user_tokens current_points pillar_totals
                   tokens_allocated claim_decisions;
  let new_rollover := update_rollover current_points claim_decisions in
  mret ({| user_tokens := user_tokens;
           pillar_totals := pillar_totals;
           current_points := current_points;
           result_rollover_points := new_rollover |},
        {| total_emissions := total_emissions self;
           pillar_configs := pillar_configs self;
           rollover_points := new_rollover |}).

(** ** Specification-side vocabulary *)

(** [m[user][pillar]], when both keys are present. *)
Definition cell {V : Type} (m : gmap string (gmap string V))
    (user pillar : string) : option V :=
  m !! user ≫= λ row, row !! pillar.

(** The share of a pillar's budget that [points] out of [total] earns. *)
Definition share_of (points total : Qc) : Qc :=
  if decide (0 < total) then points / total else 0.

(** The budget of a pillar. *)
Definition budget_of (self : EmissionSystem) (config : PillarConfig) : Qc :=
  total_emissions self * weight config * emission_pct config.

Definition Qc_sum (xs : list Qc) : Qc := foldr Qcplus 0 xs.

(** The sum over all users of [m[user][pillar]]. *)
Definition column_sum (m : Points) (pillar : string) : Qc :=
  Qc_sum ((λ '(_, row), default 0 (row !! pillar)) <$> map_to_list m).

(** The users a snapshot is computed over. *)
Definition all_users (self : EmissionSystem) (new_contributions : Points)
    : gset string :=
  dom (rollover_points self) ∪ dom new_contributions.

(** States the engine can be in: the initial one, and any state left by a
    successful [process_snapshot]. *)
Inductive reachable (total : Qc) (configs : gmap string PillarConfig)
    : EmissionSystem → Prop :=
  | reachable_init : reachable total configs (init total configs)
  | reachable_step self new_contributions claim_decisions res self' :
      reachable total configs self →
      process_snapshot self new_contributions claim_decisions
        = Ok (res, self') →
      reachable total configs self'.

(** What lines 44-50 store in [user_tokens[user][pillar]]. *)
Definition payout (pillar_totals tokens_allocated : gmap string Qc)
    (claim_decisions : Claims) (user pillar : string) (points : Qc) : Qc :=
  if claimed claim_decisions user pillar
  then default 0 (tokens_allocated !! pillar)
       * share_of points (default 0 (pillar_totals !! pillar))
  else 0.

(** ** A concrete period

    One pillar with weight 1 and emission percentage 1/4, a budget of 10000
    tokens; alice brings 100 points and bob 300. *)

Definition ex_config : PillarConfig :=
  {| weight := 1; emission_pct := Q2Qc (1 # 4) |}.
Definition ex_engine : EmissionSystem :=
  init (Q2Qc 10000) {[ "dev" := ex_config ]}.
Definition ex_contributions : Points :=
  {[ "alice" := {[ "dev" := Q2Qc 100 ]}; "bob" := {[ "dev" := Q2Qc 300 ]} ]}.
Definition ex_both_claim : Claims :=
  {[ "alice" := {[ "dev" := true ]}; "bob" := {[ "dev" := true ]} ]}.
Definition ex_bob_claims : Claims :=
  {[ "alice" := {[ "dev" := false ]}; "bob" := {[ "dev" := true ]} ]}.

(** The engine after the period in which only bob claims: alice's 100
    points are carried over. *)
Definition ex_engine_after : EmissionSystem :=
  {| total_emissions := Q2Qc 10000;
     pillar_configs := {[ "dev" := ex_config ]};
     rollover_points :=
       {[ "alice" := {[ "dev" := Q2Qc 100 ]}; "bob" := {[ "dev" := 0 ]} ]} |}.

(** Evaluates a closed decidable proposition. *)
Ltac by_evaluation :=
  lazymatch goal with
  | |- ?P => apply (bool_decide_unpack P); vm_compute; exact I
  end.

(** Contributions to a pillar that is not configured. *)
Definition ex_contributions_extra : Points :=
  {[ "alice" := {[ "dev" := Q2Qc 100; "design" := Q2Qc 7 ]};
     "bob" := {[ "dev" := Q2Qc 300 ]} ]}.

(** A period with a negative entry: the pillar total is [-50]. *)
Definition ex_contributions_negative : Points :=
  {[ "alice" := {[ "dev" := Q2Qc (-100) ]}; "bob" := {[ "dev" := Q2Qc 50 ]} ]}.

(** The claim row of carol, who never contributes. *)
Definition ex_carol_row : gmap string bool := {[ "dev" := true ]}.

(** Every user holding points in [pillar] claims it. *)
Definition all_holders_claim (current_points : Points) (cd : Claims)
    (pillar : string) : Prop :=
  map_Forall (λ user row,
    default 0 (row !! pillar) ≠ 0 → claimed cd user pillar = true)
  current_points.

Global Instance all_holders_claim_dec cp cd pillar :
  Decision (all_holders_claim cp cd pillar).
Proof. unfold all_holders_claim. apply _. Defined.

(** All entries of a user/pillar table are non-negative. *)
Definition nonneg_points (m : Points) : Prop :=
  map_Forall (λ _ row, map_Forall (λ _ v, 0 ≤ v) (row : gmap string Qc)) m.

Global Instance nonneg_points_dec m : Decision (nonneg_points m).
Proof. unfold nonneg_points. apply _. Defined.

(** Non-negative weights, emission percentages within [0, 1]. *)
Definition nonneg_configs (configs : gmap string PillarConfig) : Prop :=
  map_Forall (λ _ c, 0 ≤ weight c ∧ 0 ≤ emission_pct c ∧ emission_pct c ≤ 1)
    configs.

Global Instance nonneg_configs_dec configs : Decision (nonneg_configs configs).
Proof. unfold nonneg_configs. apply _. Defined.

(** A period in which alice and bob take part without any points. *)
Definition ex_contributions_zero : Points :=
  {[ "alice" := {[ "dev" := 0 ]}; "bob" := {[ "dev" := 0 ]} ]}.

(** The points of [pillar] held by the users who claim it. *)
Definition claimed_sum (current_points : Points) (cd : Claims)
    (pillar : string) : Qc :=
  Qc_sum ((λ '(user, row),
            if claimed cd user pillar then default 0 (row !! pillar) else 0)
          <$> map_to_list current_points).

(** Every entry of a user/pillar table multiplied by [k]. *)
Definition scale_points (k : Qc) (m : Points) : Points :=
  (λ row : gmap string Qc, Qcmult k <$> row) <$> m.

(** The engine with its rollover state multiplied by [k]. *)
Definition scale_engine (k : Qc) (self : EmissionSystem) : EmissionSystem :=
  {| total_emissions := total_emissions self;
     pillar_configs := pillar_configs self;
     rollover_points := scale_points k (rollover_points self) |}.

(** The contributions of a second period: alice adds 20 points. *)
Definition ex_contributions_next : Points :=
  {[ "alice" := {[ "dev" := Q2Qc 20 ]} ]}.

(** ** The tabular upload of [main] (lines 126-137)

    A cell of the [claim] column is a string, whose characters are read as
    code points below 256; [user] and [pillar] cells are strings and
    [points] cells numbers. *)

(** [str.isspace] on one character. *)
Definition isspace (c : Ascii.ascii) : bool :=
  let n := Ascii.N_of_ascii c in
  ((9 <=? n) && (n <=? 13) || (28 <=? n) && (n <=? 32)
   || (n =? 133) || (n =? 160))%N.

(** [str.lower] on one character. *)
Definition lower_char (c : Ascii.ascii) : Ascii.ascii :=
  let n := Ascii.N_of_ascii c in
  if ((65 <=? n) && (n <=? 90)
      || (192 <=? n) && (n <=? 222) && negb (n =? 215))%N
  then Ascii.ascii_of_N (n + 32) else c.

(** [s.lower()] *)
Fixpoint lower (s : string) : string :=
  match s with
  | EmptyString => EmptyString
  | String c s' => String (lower_char c) (lower s')
  end.

(** [s.lstrip()] *)
Fixpoint lstrip (s : string) : string :=
  match s with
  | EmptyString => EmptyString
  | String c s' => if isspace c then lstrip s' else s
  end.

(** [s.rstrip()] *)
Fixpoint rstrip (s : string) : string :=
  match s with
  | EmptyString => EmptyString
  | String c s' =>
      match rstrip s' with
      | EmptyString => if isspace c then EmptyString else String c EmptyString
      | r => String c r
      end
  end.

(** [s.strip()] *)
Definition strip (s : string) : string := rstrip (lstrip s).

(** [True if str(cell).strip().lower() == "yes" else False] *)
Definition parse_claim (cell : string) : bool :=
  bool_decide (lower (strip cell) = "yes").

(** One row of the uploaded table. *)
Record CsvRow : Type := {
  row_user : string;
  row_pillar : string;
  row_points : Qc;
  row_claim : string
}.

(** The body of the loop over the rows (lines 127-137), on the pair
    [(contributions, claim_decisions)]. *)
Definition upload_row (row : CsvRow) (state : Points * Claims)
    : Exc (Points * Claims) :=
  let '(contributions, claim_decisions) := state in
  let user := row_user row in
  let pillar := row_pillar row in
  let points := row_points row in
  let claim := parse_claim (row_claim row) in
  let '(contributions, claim_decisions) :=
    if decide (contributions !! user = None)
    then (<[user := ∅]> contributions, <[user := ∅]> claim_decisions)
    else (contributions, claim_decisions) in
  held ← getitem contributions user;
  let contributions :=
    <[user := <[pillar := default 0 (held !! pillar) + points]> held]>
      contributions in
  decisions ← getitem claim_decisions user;
  mret (contributions,
        <[user := <[pillar := claim]> decisions]> claim_decisions).

(** Lines 101-102 and 126-137: both tables start empty and are filled row
    by row. *)
Definition csv_upload (df : list CsvRow) : Exc (Points * Claims) :=
  for_each df upload_row (∅, ∅).

(** The rows of the table that speak about [user] and [pillar]. *)
Definition rows_for (df : list CsvRow) (user pillar : string) : list CsvRow :=
  filter (λ row, row_user row = user ∧ row_pillar row = pillar) df.

(** An uploaded table: alice appears twice, first declining and then
    claiming. *)
Definition ex_table : list CsvRow :=
  [ {| row_user := "alice"; row_pillar := "dev";
       row_points := Q2Qc 60; row_claim := "no" |};
    {| row_user := "bob"; row_pillar := "dev";
       row_points := Q2Qc 300; row_claim := " YES " |};
    {| row_user := "alice"; row_pillar := "dev";
       row_points := Q2Qc 40; row_claim := "Yes" |} ].

(** Every character of [s] is whitespace. *)
Fixpoint all_space (s : string) : bool :=
  match s with
  | EmptyString => true
  | String c s' => isspace c && all_space s'
  end.

(** The rows of [ex_table] in another order. *)
Definition ex_table_reordered : list CsvRow :=
  [ {| row_user := "alice"; row_pillar := "dev";
       row_points := Q2Qc 40; row_claim := "Yes" |};
    {| row_user := "bob"; row_pillar := "dev";
       row_points := Q2Qc 300; row_claim := " YES " |};
    {| row_user := "alice"; row_pillar := "dev";
       row_points := Q2Qc 60; row_claim := "no" |} ].

(** ** The export of [main] (lines 149-152) *)

(** One row of the exported table, [{"user": _, "pillar": _, "tokens": _}]. *)
Record OutputRow : Type := {
  out_user : string;
  out_pillar : string;
  out_tokens : Qc
}.

Global Instance OutputRow_eq_dec : EqDecision OutputRow.
Proof. solve_decision. Defined.

(** Lines 149-152: [output_rows], one appended row per user and pillar of
    [result["user_tokens"]]. *)
Definition output_rows (user_tokens : Points) : list OutputRow :=
  foldl (λ output_rows '(user, tokens),
    foldl (λ output_rows '(pillar, token_amt),
      output_rows ++ [{| out_user := user;
                         out_pillar := pillar;
                         out_tokens := token_amt |}])
    output_rows (items tokens))
  [] (items user_tokens).

(** The path through [main] on which a table is uploaded and the snapshot
    processed: the engine is built from the configuration (line 94), the
    rows are read (lines 126-137), the snapshot is processed (line 141) and
    the rows of the export are collected (lines 149-152).  The values of
    the widgets and the parsed table are the arguments; the result is the
    export and the rollover state that is displayed. *)
Definition main_csv (total_emissions : Qc)
    (pillar_configs : gmap string PillarConfig) (df : list CsvRow)
    : Exc (list OutputRow * Points) :=
  let emission_system := init total_emissions pillar_configs in
  '(contributions, claim_decisions) ← csv_upload df;
  '(result, _) ← process_snapshot emission_system contributions
                   claim_decisions;
  mret (output_rows (user_tokens result), result_rollover_points result).


(** ** Basic facts about the exception monad *)

Lemma getitem_Some {V : Type} (d : gmap string V) k v :
  d !! k = Some v → getitem d k = Ok v.
Proof. unfold getitem. by intros ->. Qed.

Lemma truediv_pos (a b : Qc) : 0 < b → truediv a b = Ok (a / b).
Proof.
  intros Hb. unfold truediv. rewrite decide_False; [done|].
  intros ->. by apply Qclt_not_eq in Hb.
Qed.

(** A loop whose body cannot raise is a left fold. *)
Lemma for_each_pure {A S : Type} (g : S → A → S) (body : A → S → Exc S) xs s :
  (∀ x s, x ∈ xs → body x s = Ok (g s x)) →
  for_each xs body s = Ok (foldl g s xs).
Proof.
  revert s. induction xs as [|x xs IH]; intros s Hbody; [done|].
  simpl. rewrite Hbody by left. simpl. apply IH.
  intros y s' Hy. apply Hbody. by right.
Qed.

(** ** Loops that build a dictionary *)

Section dict_loops.
Context {A W : Type} (key : A → string) (val : A → W).
Context (f : gmap string W → A → gmap string W).
Hypothesis f_insert : ∀ m x, f m x = <[key x := val x]> m.

Lemma foldl_insert_lookup_notin xs m0 k :
  k ∉ key <$> xs → foldl f m0 xs !! k = m0 !! k.
Proof.
  revert m0. induction xs as [|y ys IH]; intros m0 Hk; [done|].
  rewrite fmap_cons, not_elem_of_cons in Hk. destruct Hk as [Hne Hk].
  simpl. rewrite IH by done. rewrite f_insert.
  by rewrite lookup_insert_ne.
Qed.

Lemma foldl_insert_lookup_in xs m0 x :
  NoDup (key <$> xs) → x ∈ xs → foldl f m0 xs !! key x = Some (val x).
Proof.
  revert m0. induction xs as [|y ys IH]; intros m0 Hnd Hx.
  { by apply elem_of_nil in Hx. }
  rewrite fmap_cons, NoDup_cons in Hnd. destruct Hnd as [Hy Hnd].
  apply elem_of_cons in Hx. destruct Hx as [->|Hx]; simpl.
  - rewrite foldl_insert_lookup_notin by done.
    rewrite f_insert. apply lookup_insert_eq.
  - by apply IH.
Qed.
End dict_loops.

Lemma foldl_insert_keys {V W : Type} (g : string → W)
    (f : gmap string W → string → gmap string W) (d : gmap string V) k :
  (∀ m x, f m x = <[x := g x]> m) →
  foldl f ∅ (keys d) !! k = (λ _, g k) <$> d !! k.
Proof.
  intros Hf. unfold keys. destruct (d !! k) as [v|] eqn:Hk; simpl.
  - apply (foldl_insert_lookup_in id g f Hf).
    + rewrite list_fmap_id. apply NoDup_fst_map_to_list.
    + apply list_elem_of_fmap. exists (k, v). split; [done|].
      by apply elem_of_map_to_list.
  - rewrite (foldl_insert_lookup_notin id g f Hf); [done|].
    rewrite list_fmap_id. intros ([k' v] & -> & Hin)%list_elem_of_fmap.
    apply elem_of_map_to_list in Hin. simpl in Hk. congruence.
Qed.

Lemma foldl_insert_elements {W : Type} (g : string → W)
    (f : gmap string W → string → gmap string W) (X : gset string) k :
  (∀ m x, f m x = <[x := g x]> m) →
  foldl f ∅ (elements X) !! k = if decide (k ∈ X) then Some (g k) else None.
Proof.
  intros Hf. case_decide as Hk.
  - apply (foldl_insert_lookup_in id g f Hf).
    + rewrite list_fmap_id. apply NoDup_elements.
    + by apply elem_of_elements.
  - rewrite (foldl_insert_lookup_notin id g f Hf); [done|].
    by rewrite list_fmap_id, elem_of_elements.
Qed.

Lemma foldl_insert_items {V W : Type} (g : string → V → W)
    (f : gmap string W → string * V → gmap string W) (d : gmap string V) k :
  (∀ m x v, f m (x, v) = <[x := g x v]> m) →
  foldl f ∅ (items d) !! k = g k <$> d !! k.
Proof.
  intros Hf. unfold items.
  assert (Hf' : ∀ m x, f m x = <[x.1 := g x.1 x.2]> m) by (by intros m []).
  destruct (d !! k) as [v|] eqn:Hk; simpl.
  - apply (foldl_insert_lookup_in fst (λ x, g x.1 x.2) f Hf' _ _ (k, v)).
    + apply NoDup_fst_map_to_list.
    + by apply elem_of_map_to_list.
  - rewrite (foldl_insert_lookup_notin fst _ f Hf'); [done|].
    intros ([k' v] & -> & Hin)%list_elem_of_fmap.
    apply elem_of_map_to_list in Hin. simpl in Hk. congruence.
Qed.

(** ** Stage 1: the merged points *)

Section stages.
Context (self : EmissionSystem) (new_contributions : Points).

Let configs := pillar_configs self.
Let cp := combine_points self new_contributions.

(** The row stored for [user]: one entry per configured pillar. *)
Lemma combine_points_lookup user :
  cp !! user =
    if decide (user ∈ all_users self new_contributions)
    then Some (foldl (λ row pillar,
           <[pillar :=
               default 0 (default ∅ (rollover_points self !! user) !! pillar)
               + default 0 (default ∅ (new_contributions !! user) !! pillar)]>
             row) ∅ (keys configs))
    else None.
Proof.
  unfold cp, combine_points, all_users.
  by erewrite foldl_insert_elements; [|by intros].
Qed.

Lemma combine_points_cell user pillar :
  cell cp user pillar =
    if decide (user ∈ all_users self new_contributions ∧ pillar ∈ dom configs)
    then Some (default 0 (cell (rollover_points self) user pillar)
               + default 0 (cell new_contributions user pillar))
    else None.
Proof.
  unfold cell. rewrite combine_points_lookup.
  destruct (decide (user ∈ _)) as [Hu|Hu]; simpl.
  - erewrite foldl_insert_keys; [|by intros].
    destruct (configs !! pillar) as [c|] eqn:Hc; simpl.
    + rewrite decide_True by (split; [done|]; by apply elem_of_dom).
      by destruct (rollover_points self !! user),
                  (new_contributions !! user).
    + rewrite decide_False; [done|]. intros [_ Hp].
      apply elem_of_dom in Hp. rewrite Hc in Hp. by destruct Hp.
  - rewrite decide_False; [done|]. by intros [? _].
Qed.

Lemma combine_points_dom : dom cp = all_users self new_contributions.
Proof.
  apply set_eq. intros user. rewrite elem_of_dom, combine_points_lookup.
  case_decide; [by split; eauto|]. split; [by intros []|done].
Qed.

Lemma combine_points_row_dom user row :
  cp !! user = Some row → dom row = dom configs.
Proof.
  rewrite combine_points_lookup. case_decide; [|done].
  intros [= <-]. apply set_eq. intros pillar.
  rewrite !elem_of_dom. erewrite foldl_insert_keys; [|by intros].
  by rewrite fmap_is_Some.
Qed.
End stages.

(** ** Stage 2: the pillar totals *)

Lemma Qc_sum_cons x xs : Qc_sum (x :: xs) = x + Qc_sum xs.
Proof. done. Qed.

Lemma Qc_sum_perm xs ys : xs ≡ₚ ys → Qc_sum xs = Qc_sum ys.
Proof.
  induction 1 as [|x xs ys _ IH|x y xs|xs ys zs _ IH1 _ IH2]; simpl.
  - done.
  - by rewrite IH.
  - rewrite !Qcplus_assoc. by rewrite (Qcplus_comm y x).
  - by rewrite IH1.
Qed.


(** The inner loop of lines 31-32 adds one user's row to the totals; it
    succeeds when every pillar of the row already has a total. *)
Lemma add_row_ok (l : list (string * Qc)) (t : gmap string Qc) :
  NoDup l.*1 →
  (∀ k v, (k, v) ∈ l → is_Some (t !! k)) →
  ∃ t',
    for_each l (λ '(pillar, points) pillar_totals,
      total ← getitem pillar_totals pillar;
      mret (<[pillar := total + points]> pillar_totals)) t = Ok t' ∧
    ∀ p, t' !! p =
      (λ x, x + default 0 ((list_to_map l : gmap string Qc) !! p)) <$> t !! p.
Proof.
  revert t. induction l as [|[k v] l IH]; intros t Hnd Hin.
  { exists t. split; [done|]. intros p. simpl. rewrite lookup_empty. simpl.
    destruct (t !! p); simpl; [|done]. by rewrite Qcplus_0_r. }
  rewrite fmap_cons, NoDup_cons in Hnd. destruct Hnd as [Hk Hnd].
  destruct (Hin k v) as [x Hx]; [by left|].
  destruct (IH (<[k := x + v]> t) Hnd) as (t' & Hrun & Hlook).
  { intros k' v' Hin'. rewrite lookup_insert. case_decide; [by eauto|].
    apply (Hin k' v'). by right. }
  exists t'. split.
  { cbn [for_each]. by rewrite (getitem_Some _ _ _ Hx). }
  intros p. rewrite Hlook. simpl. destruct (decide (k = p)) as [<-|Hne].
  - rewrite lookup_insert_eq, Hx. simpl.
    rewrite (not_elem_of_list_to_map_1 l k), lookup_insert_eq by done.
    simpl. by rewrite Qcplus_0_r.
  - by rewrite !lookup_insert_ne.
Qed.

(** The outer loop of lines 30-32. *)
Lemma add_rows_ok (L : list (string * gmap string Qc)) (t : gmap string Qc) :
  (∀ user row, (user, row) ∈ L → dom row ⊆ dom t) →
  ∃ t',
    for_each L (λ '(_, pts) pillar_totals,
      for_each (items pts) (λ '(pillar, points) pillar_totals,
        total ← getitem pillar_totals pillar;
        mret (<[pillar := total + points]> pillar_totals))
      pillar_totals) t = Ok t' ∧
    ∀ p, t' !! p =
      (λ x, x + Qc_sum ((λ '(_, row), default 0 (row !! p)) <$> L)) <$> t !! p.
Proof.
  revert t. induction L as [|[user row] L IH]; intros t Hdom.
  { exists t. split; [done|]. intros p. simpl.
    destruct (t !! p); simpl; [|done]. by rewrite Qcplus_0_r. }
  destruct (add_row_ok (items row) t) as (t1 & Hrun1 & Hlook1).
  { apply NoDup_fst_map_to_list. }
  { intros k v Hkv%elem_of_map_to_list. apply elem_of_dom.
    apply (Hdom user row); [by left|]. apply elem_of_dom. eauto. }
  assert (Hrow : ∀ p, t1 !! p = (λ x, x + default 0 (row !! p)) <$> t !! p).
  { intros p. rewrite Hlook1. unfold items. by rewrite list_to_map_to_list. }
  clear Hlook1.
  destruct (IH t1) as (t' & Hrun & Hlook).
  { intros user' row' Hin'. trans (dom t); [apply (Hdom user' row'); by right|].
    intros p. rewrite !elem_of_dom, Hrow. by rewrite fmap_is_Some. }
  exists t'. split.
  { cbn [for_each]. by rewrite Hrun1. }
  intros p. rewrite Hlook, Hrow. rewrite fmap_cons, Qc_sum_cons.
  destruct (t !! p); simpl; [|done]. by rewrite Qcplus_assoc.
Qed.

Lemma compute_pillar_totals_ok (self : EmissionSystem) (current_points : Points) :
  (∀ user row, current_points !! user = Some row →
     dom row ⊆ dom (pillar_configs self)) →
  ∃ totals,
    compute_pillar_totals self current_points = Ok totals ∧
    ∀ p, totals !! p =
      if decide (p ∈ dom (pillar_configs self))
      then Some (column_sum current_points p) else None.
Proof.
  intros Hrows. unfold compute_pillar_totals.
  set (zeros := foldl _ ∅ _).
  assert (Hzeros : ∀ p, zeros !! p = (λ _, 0) <$> pillar_configs self !! p).
  { intros p. unfold zeros. by rewrite (foldl_insert_keys (λ _, 0)). }
  destruct (add_rows_ok (items current_points) zeros) as (t & Hrun & Hlook).
  { intros user row Hin%elem_of_map_to_list. trans (dom (pillar_configs self));
      [by eapply Hrows|].
    intros p. rewrite !elem_of_dom, Hzeros. by rewrite fmap_is_Some. }
  exists t. split; [done|]. intros p. rewrite Hlook, Hzeros.
  case_decide as Hp.
  - apply elem_of_dom in Hp as [c ->]. simpl. by rewrite Qcplus_0_l.
  - apply not_elem_of_dom in Hp. by rewrite Hp.
Qed.

(** ** Stage 3: the pillar budgets *)

Lemma allocate_tokens_lookup (self : EmissionSystem) p :
  allocate_tokens self !! p =
    (λ c, total_emissions self * (weight c * emission_pct c)) <$>
      pillar_configs self !! p.
Proof.
  unfold allocate_tokens.
  by rewrite (foldl_insert_items
    (λ _ c, total_emissions self * (weight c * emission_pct c))).
Qed.

(** ** Stage 4: the payouts *)

Lemma calculate_user_tokens_ok (cp : Points)
    (totals budgets : gmap string Qc) (cd : Claims) :
  (∀ user row, cp !! user = Some row →
     dom row ⊆ dom totals ∧ dom row ⊆ dom budgets) →
  ∃ ut,
    calculate_user_tokens cp totals budgets cd = Ok ut ∧
    dom ut = dom cp ∧
    ∀ user pillar,
      cell ut user pillar = payout totals budgets cd user pillar <$>
                              cell cp user pillar.
Proof.
  intros Hrows. unfold calculate_user_tokens.
  set (row_of := λ (user : string) (pts : gmap string Qc),
    foldl (λ (row : gmap string Qc) '(pillar, points),
      <[pillar := payout totals budgets cd user pillar points]> row)
    ∅ (items pts)).
  erewrite (for_each_pure
    (λ (ut : Points) '(user, pts), <[user := row_of user pts]> ut)).
  - eexists. split; [done|]. split.
    { apply set_eq. intros user.
      rewrite !elem_of_dom, (foldl_insert_items row_of) by done.
      by rewrite fmap_is_Some. }
    intros user pillar. unfold cell.
    rewrite (foldl_insert_items row_of) by done.
    destruct (cp !! user) as [row|]; simpl; [|done].
    unfold row_of. by rewrite (foldl_insert_items (payout totals budgets cd user)).
  - intros [user pts] ut Hin%elem_of_map_to_list.
    destruct (Hrows _ _ Hin) as [Htot Hbud].
    erewrite (for_each_pure (λ (row : gmap string Qc) '(pillar, points),
      <[pillar := payout totals budgets cd user pillar points]> row)); [done|].
    intros [pillar points] row Hp%elem_of_map_to_list.
    assert (pillar ∈ dom pts) as Hdom by (apply elem_of_dom; eauto).
    destruct (proj1 (elem_of_dom totals pillar) (Htot _ Hdom)) as [tot Ht].
    destruct (proj1 (elem_of_dom budgets pillar) (Hbud _ Hdom)) as [bud Hb].
    rewrite (getitem_Some _ _ _ Ht), (getitem_Some _ _ _ Hb). simpl.
    unfold payout, share_of. rewrite Ht, Hb. simpl.
    destruct (decide (0 < tot)) as [Hpos|Hneg].
    + rewrite (truediv_pos _ _ Hpos). simpl. by destruct (claimed cd user pillar).
    + simpl. by destruct (claimed cd user pillar).
Qed.

(** ** Stage 5: the new rollover state *)

Lemma update_rollover_cell (cp : Points) (cd : Claims) user pillar :
  cell (update_rollover cp cd) user pillar =
    (λ points, if claimed cd user pillar then 0 else points) <$>
      cell cp user pillar.
Proof.
  unfold update_rollover, cell.
  rewrite (foldl_insert_items (λ user pts,
    foldl (λ (row : gmap string Qc) '(pillar, points),
      if claimed cd user pillar then <[pillar := 0]> row
      else <[pillar := points]> row) ∅ (items pts))) by done.
  destruct (cp !! user) as [row|]; simpl; [|done].
  rewrite (foldl_insert_items (λ pillar points,
    if claimed cd user pillar then 0 else points)); [done|].
  intros m p v. by destruct (claimed cd user p).
Qed.

Lemma update_rollover_dom (cp : Points) (cd : Claims) :
  dom (update_rollover cp cd) = dom cp.
Proof.
  apply set_eq. intros user. rewrite !elem_of_dom. unfold update_rollover.
  rewrite (foldl_insert_items (λ user pts,
    foldl (λ (row : gmap string Qc) '(pillar, points),
      if claimed cd user pillar then <[pillar := 0]> row
      else <[pillar := points]> row) ∅ (items pts))) by done.
  by rewrite fmap_is_Some.
Qed.

(** ** The whole step *)

(** Two user/pillar tables with the same users and the same cells are the
    same table. *)
Lemma points_eq {V : Type} (m1 m2 : gmap string (gmap string V)) :
  dom m1 = dom m2 →
  (∀ user pillar, cell m1 user pillar = cell m2 user pillar) →
  m1 = m2.
Proof.
  intros Hdom Hcell. apply map_eq. intros user.
  specialize (Hcell user). unfold cell in Hcell.
  destruct (m1 !! user) as [r1|] eqn:H1, (m2 !! user) as [r2|] eqn:H2.
  - f_equal. apply map_eq. intros pillar. apply Hcell.
  - apply not_elem_of_dom in H2. rewrite <- Hdom in H2.
    apply not_elem_of_dom in H2. congruence.
  - apply not_elem_of_dom in H1. rewrite Hdom in H1.
    apply not_elem_of_dom in H1. congruence.
  - done.
Qed.

Lemma cell_lookup {V : Type} (m : gmap string (gmap string V)) user row pillar :
  m !! user = Some row → cell m user pillar = row !! pillar.
Proof. unfold cell. by intros ->. Qed.

(** [process_snapshot] never raises, and its result is made of the five
    stages. *)
Lemma process_snapshot_spec (self : EmissionSystem) (nc : Points) (cd : Claims) :
  let cp := combine_points self nc in
  ∃ totals ut,
    process_snapshot self nc cd =
      Ok ({| user_tokens := ut;
             pillar_totals := totals;
             current_points := cp;
             result_rollover_points := update_rollover cp cd |},
          {| total_emissions := total_emissions self;
             pillar_configs := pillar_configs self;
             rollover_points := update_rollover cp cd |}) ∧
    (∀ p, totals !! p =
       if decide (p ∈ dom (pillar_configs self))
       then Some (column_sum cp p) else None) ∧
    dom ut = dom cp ∧
    (∀ user pillar,
       cell ut user pillar =
         payout totals (allocate_tokens self) cd user pillar <$>
           cell cp user pillar).
Proof.
  intros cp.
  destruct (compute_pillar_totals_ok self cp) as (totals & Htot & Hlook).
  { intros user row Hrow. by rewrite (combine_points_row_dom _ _ _ _ Hrow). }
  destruct (calculate_user_tokens_ok cp totals (allocate_tokens self) cd)
    as (ut & Hut & Hdom & Hcell).
  { intros user row Hrow. rewrite (combine_points_row_dom _ _ _ _ Hrow).
    split; intros p Hp; apply elem_of_dom.
    - rewrite Hlook. by rewrite decide_True.
    - rewrite allocate_tokens_lookup, fmap_is_Some. by apply elem_of_dom. }
  exists totals, ut. split; [|done].
  unfold process_snapshot. fold cp. rewrite Htot. simpl. by rewrite Hut.
Qed.

(** New contributions that differ only outside the configured pillars, or
    only by entries equal to the default [0], merge to the same points. *)
Lemma combine_points_ext (self : EmissionSystem) (nc nc' : Points) :
  dom nc' = dom nc →
  (∀ user pillar, pillar ∈ dom (pillar_configs self) →
     default 0 (cell nc' user pillar) = default 0 (cell nc user pillar)) →
  combine_points self nc' = combine_points self nc.
Proof.
  intros Hdom Hcell. apply points_eq.
  - rewrite !combine_points_dom. unfold all_users. by rewrite Hdom.
  - intros user pillar. rewrite !combine_points_cell. unfold all_users.
    rewrite Hdom. case_decide as Hup; [|done].
    by rewrite (Hcell _ _ (proj2 Hup)).
Qed.

(** ** The claims *)

(** C1. For every user of the snapshot and every configured pillar, the
    returned [user_tokens[user][pillar]] is [tokens_allocated * share] when
    the user claims the pillar and [0] otherwise, where [tokens_allocated]
    is [total_emissions * weight * emission_pct] and [share] is
    [current_points[user][pillar] / pillar_totals[pillar]] for a positive
    total and [0] otherwise. *)
Theorem C1_user_tokens_formula (self : EmissionSystem) (nc : Points)
    (cd : Claims) (user pillar : string) (config : PillarConfig) :
  user ∈ all_users self nc →
  pillar_configs self !! pillar = Some config →
  ∃ res self' points total,
    process_snapshot self nc cd = Ok (res, self') ∧
    cell (current_points res) user pillar = Some points ∧
    pillar_totals res !! pillar = Some total ∧
    cell (user_tokens res) user pillar =
      Some (if claimed cd user pillar
            then budget_of self config * share_of points total
            else 0).
Proof.
  intros Huser Hconfig.
  assert (Hpillar : pillar ∈ dom (pillar_configs self))
    by (apply elem_of_dom; eauto).
  destruct (process_snapshot_spec self nc cd)
    as (totals & ut & Hrun & Htot & _ & Hcell).
  eexists _, _, _, _. split; [exact Hrun|]. simpl.
  split; [|split].
  - rewrite combine_points_cell. by rewrite decide_True.
  - rewrite Htot. by rewrite decide_True.
  - rewrite Hcell, combine_points_cell, decide_True by done. simpl.
    unfold payout, budget_of. rewrite Htot, decide_True by done.
    rewrite allocate_tokens_lookup, Hconfig. simpl.
    by rewrite Qcmult_assoc.
Qed.

Lemma C1_witness :
  "alice" ∈ all_users ex_engine ex_contributions ∧
  pillar_configs ex_engine !! "dev" = Some ex_config ∧
  ∃ res self' points total,
    process_snapshot ex_engine ex_contributions ex_both_claim
      = Ok (res, self') ∧
    cell (current_points res) "alice" "dev" = Some points ∧
    pillar_totals res !! "dev" = Some total ∧
    cell (user_tokens res) "alice" "dev" =
      Some (if claimed ex_both_claim "alice" "dev"
            then budget_of ex_engine ex_config * share_of points total
            else 0).
Proof.
  split; [by_evaluation|]. split; [reflexivity|].
  apply C1_user_tokens_formula; [by_evaluation|reflexivity].
Defined.

(** The figures of the concrete period: 625 and 1875 tokens out of 2500. *)
Example ex_tokens :
  ∃ res self',
    process_snapshot ex_engine ex_contributions ex_both_claim
      = Ok (res, self') ∧
    cell (user_tokens res) "alice" "dev" = Some (Q2Qc 625) ∧
    cell (user_tokens res) "bob" "dev" = Some (Q2Qc 1875) ∧
    pillar_totals res !! "dev" = Some (Q2Qc 400).
Proof.
  eexists _, _. split; [vm_compute; reflexivity|]. repeat split; by_evaluation.
Qed.

(** C2. After [process_snapshot], for every user of the snapshot and every
    configured pillar, the new rollover state holds [0] where the user
    claimed and the full merged [current_points[user][pillar]] otherwise. *)
Theorem C2_rollover_update (self : EmissionSystem) (nc : Points)
    (cd : Claims) (user pillar : string) :
  user ∈ all_users self nc →
  pillar ∈ dom (pillar_configs self) →
  ∃ res self' points,
    process_snapshot self nc cd = Ok (res, self') ∧
    result_rollover_points res = rollover_points self' ∧
    cell (current_points res) user pillar = Some points ∧
    points = default 0 (cell (rollover_points self) user pillar)
             + default 0 (cell nc user pillar) ∧
    cell (rollover_points self') user pillar =
      Some (if claimed cd user pillar then 0 else points).
Proof.
  intros Huser Hpillar.
  destruct (process_snapshot_spec self nc cd) as (totals & ut & Hrun & _).
  eexists _, _, _. split; [exact Hrun|]. simpl.
  split; [done|]. split; [|split; [reflexivity|]].
  - rewrite combine_points_cell. by rewrite decide_True.
  - rewrite update_rollover_cell, combine_points_cell.
    by rewrite decide_True.
Qed.

Lemma C2_witness :
  "alice" ∈ all_users ex_engine ex_contributions ∧
  "dev" ∈ dom (pillar_configs ex_engine) ∧
  ∃ res self' points,
    process_snapshot ex_engine ex_contributions ex_bob_claims
      = Ok (res, self') ∧
    result_rollover_points res = rollover_points self' ∧
    cell (current_points res) "alice" "dev" = Some points ∧
    points = default 0 (cell (rollover_points ex_engine) "alice" "dev")
             + default 0 (cell ex_contributions "alice" "dev") ∧
    cell (rollover_points self') "alice" "dev" =
      Some (if claimed ex_bob_claims "alice" "dev" then 0 else points).
Proof.
  split; [by_evaluation|]. split; [by_evaluation|].
  apply C2_rollover_update; by_evaluation.
Defined.

(** The deferred claim of the concrete period leaves [ex_engine_after]. *)
Example ex_deferred :
  ∃ res,
    process_snapshot ex_engine ex_contributions ex_bob_claims
      = Ok (res, ex_engine_after) ∧
    cell (user_tokens res) "alice" "dev" = Some 0 ∧
    cell (user_tokens res) "bob" "dev" = Some (Q2Qc 1875).
Proof.
  assert (∃ res self',
    process_snapshot ex_engine ex_contributions ex_bob_claims
      = Ok (res, self') ∧
    self' = ex_engine_after ∧
    cell (user_tokens res) "alice" "dev" = Some 0 ∧
    cell (user_tokens res) "bob" "dev" = Some (Q2Qc 1875))
    as (res & ? & Hrun & -> & ? & ?); [|by eauto].
  eexists _, _. split; [vm_compute; reflexivity|]. repeat split; by_evaluation.
Qed.

(** C3. The returned [current_points] is defined exactly over the users of
    the prior rollover state and of [new_contributions]; for each of them
    and each configured pillar it is the prior rollover value (0 if absent)
    plus the new contribution (0 if absent); contributions under pillar
    names outside the configuration are ignored. *)
Theorem C3_current_points_merge (self : EmissionSystem) (nc : Points)
    (cd : Claims) :
  ∃ res self',
    process_snapshot self nc cd = Ok (res, self') ∧
    dom (current_points res) = dom (rollover_points self) ∪ dom nc ∧
    (∀ user pillar,
       user ∈ dom (rollover_points self) ∪ dom nc →
       pillar ∈ dom (pillar_configs self) →
       cell (current_points res) user pillar =
         Some (default 0 (cell (rollover_points self) user pillar)
               + default 0 (cell nc user pillar))) ∧
    (∀ user pillar,
       pillar ∉ dom (pillar_configs self) →
       cell (current_points res) user pillar = None) ∧
    (∀ nc',
       dom nc' = dom nc →
       (∀ user pillar, pillar ∈ dom (pillar_configs self) →
          cell nc' user pillar = cell nc user pillar) →
       process_snapshot self nc' cd = Ok (res, self')).
Proof.
  destruct (process_snapshot_spec self nc cd) as (totals & ut & Hrun & _).
  eexists _, _. split; [exact Hrun|]. simpl. repeat split.
  - apply combine_points_dom.
  - intros user pillar Huser Hpillar. rewrite combine_points_cell.
    by rewrite decide_True.
  - intros user pillar Hpillar. rewrite combine_points_cell.
    rewrite decide_False; [done|]. by intros [_ ?].
  - intros nc' Hdom Hcell. rewrite <- Hrun. unfold process_snapshot.
    rewrite (combine_points_ext self nc nc'); [done..|].
    intros user pillar Hpillar. by rewrite Hcell.
Qed.

Lemma C3_witness :
  ∃ res self',
    process_snapshot ex_engine ex_contributions_extra ex_both_claim
      = Ok (res, self') ∧
    dom (current_points res) = {[ "alice"; "bob" ]} ∧
    cell (current_points res) "alice" "dev" = Some (Q2Qc 100) ∧
    cell (current_points res) "alice" "design" = None ∧
    process_snapshot ex_engine ex_contributions ex_both_claim
      = Ok (res, self').
Proof.
  destruct (C3_current_points_merge ex_engine ex_contributions_extra
              ex_both_claim)
    as (res & self' & Hrun & Hdom & Hmerge & Hskip & Hsame).
  exists res, self'. split; [exact Hrun|]. split; [|split; [|split]].
  - rewrite Hdom. by_evaluation.
  - rewrite Hmerge; by_evaluation.
  - apply Hskip. by_evaluation.
  - apply Hsame; [by_evaluation|].
    intros user pillar Hpillar%elem_of_dom.
    destruct (decide (pillar = "dev")) as [->|Hne].
    + destruct (decide (user = "alice")) as [->|Ha]; [reflexivity|].
      destruct (decide (user = "bob")) as [->|Hb]; [reflexivity|].
      unfold cell, ex_contributions, ex_contributions_extra.
      by rewrite !lookup_insert_ne, !lookup_singleton_ne.
    + unfold ex_engine, init in Hpillar. simpl in Hpillar.
      rewrite lookup_singleton_ne in Hpillar by done.
      by destruct Hpillar.
Defined.

(** The rows of a table computed cell by cell from another table have the
    keys of the rows they come from. *)
Lemma row_dom_fmap {V W : Type} (m1 : gmap string (gmap string W))
    (m2 : gmap string (gmap string V)) (f : string → string → V → W) :
  dom m1 = dom m2 →
  (∀ user pillar, cell m1 user pillar = f user pillar <$> cell m2 user pillar) →
  ∀ user r1, m1 !! user = Some r1 →
    ∃ r2, m2 !! user = Some r2 ∧ dom r1 = dom r2.
Proof.
  intros Hdom Hcell user r1 H1.
  assert (is_Some (m2 !! user)) as [r2 H2].
  { apply elem_of_dom. rewrite <- Hdom. apply elem_of_dom. eauto. }
  exists r2. split; [done|]. apply set_eq. intros pillar.
  rewrite !elem_of_dom, <- (cell_lookup m1 user r1 pillar H1), Hcell.
  by rewrite (cell_lookup m2 user r2 pillar H2), fmap_is_Some.
Qed.

(** Only the decisions of the snapshot's users matter. *)
Lemma process_snapshot_claims_ext (self : EmissionSystem) (nc : Points)
    (cd cd' : Claims) :
  (∀ user pillar, user ∈ all_users self nc →
     claimed cd user pillar = claimed cd' user pillar) →
  process_snapshot self nc cd = process_snapshot self nc cd'.
Proof.
  intros Hcd.
  destruct (process_snapshot_spec self nc cd)
    as (totals & ut & -> & Htot & Hdom & Hcell).
  destruct (process_snapshot_spec self nc cd')
    as (totals' & ut' & -> & Htot' & Hdom' & Hcell').
  assert (totals' = totals) as ->.
  { apply map_eq. intros p. by rewrite Htot, Htot'. }
  assert (∀ user pillar, cell (combine_points self nc) user pillar ≠ None →
            claimed cd user pillar = claimed cd' user pillar) as Hcd'.
  { intros user pillar Hsome. apply Hcd. rewrite combine_points_cell in Hsome.
    case_decide as Hup; [apply Hup|done]. }
  assert (ut' = ut) as ->.
  { apply points_eq; [by rewrite Hdom, Hdom'|]. intros user pillar.
    rewrite Hcell, Hcell'. specialize (Hcd' user pillar).
    destruct (cell (combine_points self nc) user pillar); simpl; [|done].
    unfold payout. by rewrite Hcd'. }
  assert (update_rollover (combine_points self nc) cd'
          = update_rollover (combine_points self nc) cd) as ->; [|done].
  apply points_eq; [by rewrite !update_rollover_dom|]. intros user pillar.
  rewrite !update_rollover_cell. specialize (Hcd' user pillar).
  destruct (cell (combine_points self nc) user pillar); simpl; [|done].
  by rewrite Hcd'.
Qed.


(** C8. When a user is absent from both the prior rollover state and
    [new_contributions], the outcome of [process_snapshot] is the same
    whether or not [claim_decisions] has a row for that user, and the user
    is paid nothing. *)
Theorem C8_claim_only_user_has_no_effect (self : EmissionSystem)
    (nc : Points) (cd : Claims) (user : string) (row : gmap string bool) :
  user ∉ all_users self nc →
  process_snapshot self nc (<[user := row]> cd)
    = process_snapshot self nc (delete user cd) ∧
  ∃ res self',
    process_snapshot self nc (<[user := row]> cd) = Ok (res, self') ∧
    user_tokens res !! user = None ∧
    current_points res !! user = None ∧
    rollover_points self' !! user = None ∧
    ∀ pillar, default 0 (cell (user_tokens res) user pillar) = 0.
Proof.
  intros Huser. split.
  - apply process_snapshot_claims_ext. intros u pillar Hu.
    assert (user ≠ u) by (by intros ->). unfold claimed.
    by rewrite lookup_insert_ne, lookup_delete_ne.
  - destruct (process_snapshot_spec self nc (<[user := row]> cd))
      as (totals & ut & Hrun & _ & Hdom & _).
    eexists _, _. split; [exact Hrun|]. simpl.
    assert (ut !! user = None) as Hnone.
    { apply not_elem_of_dom. by rewrite Hdom, combine_points_dom. }
    split; [done|]. split; [|split].
    + apply not_elem_of_dom. by rewrite combine_points_dom.
    + apply not_elem_of_dom.
      by rewrite update_rollover_dom, combine_points_dom.
    + intros pillar. unfold cell. by rewrite Hnone.
Qed.

Lemma C8_witness :
  ("carol" ∉ all_users ex_engine ex_contributions) ∧
  (process_snapshot ex_engine ex_contributions
      (<["carol" := ex_carol_row]> ex_both_claim)
    = process_snapshot ex_engine ex_contributions
        (delete "carol" ex_both_claim)) ∧
  ∃ res self',
    process_snapshot ex_engine ex_contributions
      (<["carol" := ex_carol_row]> ex_both_claim) = Ok (res, self') ∧
    user_tokens res !! "carol" = None ∧
    current_points res !! "carol" = None ∧
    rollover_points self' !! "carol" = None ∧
    ∀ pillar, default 0 (cell (user_tokens res) "carol" pillar) = 0.
Proof.
  split; [by_evaluation|].
  apply C8_claim_only_user_has_no_effect. by_evaluation.
Defined.

(** C9. Every mapping produced by [process_snapshot] has a fixed key
    shape: [current_points], [user_tokens] and the new rollover state are
    keyed by exactly the users of the prior rollover state and of
    [new_contributions], each of their rows by exactly the configured
    pillars, and [pillar_totals] by exactly the configured pillars.  The
    prior state is arbitrary, so the shape holds after every call. *)
Theorem C9_key_shape (self : EmissionSystem) (nc : Points) (cd : Claims) :
  ∃ res self',
    process_snapshot self nc cd = Ok (res, self') ∧
    pillar_configs self' = pillar_configs self ∧
    dom (current_points res) = dom (rollover_points self) ∪ dom nc ∧
    dom (user_tokens res) = dom (rollover_points self) ∪ dom nc ∧
    dom (result_rollover_points res) = dom (rollover_points self) ∪ dom nc ∧
    dom (rollover_points self') = dom (rollover_points self) ∪ dom nc ∧
    dom (pillar_totals res) = dom (pillar_configs self) ∧
    (∀ user row,
       current_points res !! user = Some row ∨
       user_tokens res !! user = Some row ∨
       result_rollover_points res !! user = Some row ∨
       rollover_points self' !! user = Some row →
       dom row = dom (pillar_configs self)).
Proof.
  destruct (process_snapshot_spec self nc cd)
    as (totals & ut & Hrun & Htot & Hdom & Hcell).
  eexists _, _. split; [exact Hrun|]. simpl.
  pose proof (combine_points_dom self nc) as Hcp. unfold all_users in Hcp.
  split; [done|]. split; [done|]. split; [by rewrite Hdom|].
  split; [by rewrite update_rollover_dom|].
  split; [by rewrite update_rollover_dom|]. split.
  { apply set_eq. intros p. rewrite elem_of_dom, Htot.
    case_decide; [by split; eauto|]. split; [by intros []|done]. }
  intros user row [Hrow|[Hrow|[Hrow|Hrow]]].
  - by eapply combine_points_row_dom.
  - destruct (row_dom_fmap _ _ _ Hdom Hcell user row Hrow) as (r2 & H2 & ->).
    by eapply combine_points_row_dom.
  - destruct (row_dom_fmap _ _ _ (update_rollover_dom _ cd)
                (update_rollover_cell _ cd) user row Hrow) as (r2 & H2 & ->).
    by eapply combine_points_row_dom.
  - destruct (row_dom_fmap _ _ _ (update_rollover_dom _ cd)
                (update_rollover_cell _ cd) user row Hrow) as (r2 & H2 & ->).
    by eapply combine_points_row_dom.
Qed.



(** With a negative entry the total is [-50] and bob, who holds 50 points
    and claims, is paid nothing. *)
Example ex_negative_total :
  ∃ res self',
    process_snapshot ex_engine ex_contributions_negative ex_both_claim
      = Ok (res, self') ∧
    pillar_totals res !! "dev" = Some (Q2Qc (-50)) ∧
    cell (user_tokens res) "bob" "dev" = Some 0.
Proof.
  eexists _, _. split; [vm_compute; reflexivity|]. split; by_evaluation.
Qed.

(** ** Sums over the users of a table *)

Lemma Qc_sum_scale {A : Type} (c : Qc) (f : A → Qc) (l : list A) :
  Qc_sum ((λ x, c * f x) <$> l) = c * Qc_sum (f <$> l).
Proof.
  induction l as [|x l IH]; [simpl; by rewrite Qcmult_0_r|].
  rewrite !fmap_cons, !Qc_sum_cons, IH. ring.
Qed.

Lemma Qc_sum_ext {A : Type} (f g : A → Qc) (l : list A) :
  (∀ x, x ∈ l → f x = g x) → Qc_sum (f <$> l) = Qc_sum (g <$> l).
Proof.
  induction l as [|x l IH]; intros Hfg; [done|].
  rewrite !fmap_cons, !Qc_sum_cons, (Hfg x) by left. rewrite IH; [done|].
  intros y Hy. apply Hfg. by right.
Qed.

(** A sum over the entries of a map, read as a sum over its keys. *)
Lemma Qc_sum_keys {V : Type} (m : gmap string V) (h : string * V → Qc)
    (g : string → Qc) :
  (∀ k v, m !! k = Some v → h (k, v) = g k) →
  Qc_sum (h <$> map_to_list m) = Qc_sum (g <$> elements (dom m)).
Proof.
  induction m as [|k v m Hk Hfold IH] using map_first_key_ind; intros Hh.
  { by rewrite map_to_list_empty, dom_empty_L, elements_empty. }
  rewrite map_to_list_insert_first_key by done.
  rewrite dom_insert_L.
  rewrite (Qc_sum_perm (g <$> elements ({[k]} ∪ dom m))
             (g <$> k :: elements (dom m))).
  - rewrite !fmap_cons, !Qc_sum_cons, (Hh k v) by apply lookup_insert_eq.
    f_equal. apply IH.
    intros k' v' Hk'. apply Hh. rewrite lookup_insert_ne; [done|].
    intros <-. congruence.
  - apply fmap_Permutation, elements_union_singleton.
    by apply not_elem_of_dom.
Qed.

Lemma column_sum_users (m : Points) (pillar : string) :
  column_sum m pillar =
    Qc_sum ((λ user, default 0 (cell m user pillar)) <$> elements (dom m)).
Proof.
  unfold column_sum. apply Qc_sum_keys.
  intros user row Hrow. by rewrite (cell_lookup _ _ _ _ Hrow).
Qed.

(** C4, as stated, fails when the pillar total is not positive: alice and
    bob take part with 0 points and claim, so every holder of points
    claims, yet nothing of the 2500 tokens is paid. *)
Lemma C4_counterexample :
  ∃ res self',
    process_snapshot ex_engine ex_contributions_zero ex_both_claim
      = Ok (res, self') ∧
    pillar_configs ex_engine !! "dev" = Some ex_config ∧
    all_holders_claim (current_points res) ex_both_claim "dev" ∧
    pillar_totals res !! "dev" = Some 0 ∧
    column_sum (user_tokens res) "dev" = 0 ∧
    budget_of ex_engine ex_config = Q2Qc 2500 ∧
    column_sum (user_tokens res) "dev" ≠ budget_of ex_engine ex_config.
Proof.
  eexists _, _. split; [vm_compute; reflexivity|].
  repeat split; by_evaluation.
Qed.

(** C4, amended. For a configured pillar whose total is positive, if every
    user with nonzero [current_points] in the pillar claims, the sum over
    all users of [user_tokens[user][pillar]] is [tokens_allocated[pillar]];
    [pillar_totals[pillar]] is the sum over all users of
    [current_points[user][pillar]]. *)
Theorem C4_conservation (self : EmissionSystem) (nc : Points) (cd : Claims)
    (pillar : string) (config : PillarConfig) :
  pillar_configs self !! pillar = Some config →
  0 < column_sum (combine_points self nc) pillar →
  all_holders_claim (combine_points self nc) cd pillar →
  ∃ res self',
    process_snapshot self nc cd = Ok (res, self') ∧
    current_points res = combine_points self nc ∧
    pillar_totals res !! pillar = Some (column_sum (current_points res) pillar) ∧
    column_sum (user_tokens res) pillar = budget_of self config.
Proof.
  intros Hconfig Hpos Hclaim.
  assert (Hpillar : pillar ∈ dom (pillar_configs self))
    by (apply elem_of_dom; eauto).
  destruct (process_snapshot_spec self nc cd)
    as (totals & ut & Hrun & Htot & Hdom & Hcell).
  eexists _, _. split; [exact Hrun|]. simpl. split; [done|].
  split; [by rewrite Htot, decide_True|].
  set (cp := combine_points self nc) in *.
  set (T := column_sum cp pillar) in *.
  assert (HT : T ≠ 0).
  { intros HT. rewrite HT in Hpos. by apply Qclt_not_eq in Hpos. }
  assert (Htp : totals !! pillar = Some T) by (by rewrite Htot, decide_True).
  rewrite column_sum_users, Hdom.
  rewrite (Qc_sum_ext _
    (λ user, (budget_of self config / T) * default 0 (cell cp user pillar))).
  - rewrite Qc_sum_scale, <- column_sum_users. fold T. by field.
  - intros user Huser%elem_of_elements%elem_of_dom. destruct Huser as [row Hrow].
    rewrite Hcell, (cell_lookup _ _ _ _ Hrow).
    pose proof (map_Forall_lookup_1 _ _ _ _ Hclaim Hrow) as Hc. simpl in Hc.
    destruct (row !! pillar) as [points|] eqn:Hpoints; simpl;
      [|by rewrite Qcmult_0_r].
    unfold payout, share_of. rewrite Htp. simpl.
    rewrite decide_True by done.
    rewrite allocate_tokens_lookup, Hconfig. simpl. unfold budget_of.
    destruct (claimed cd user pillar).
    + by field.
    + destruct (decide (points = 0)) as [->|Hne]; [by field|].
      by specialize (Hc Hne).
Qed.

Lemma C4_witness :
  pillar_configs ex_engine !! "dev" = Some ex_config ∧
  0 < column_sum (combine_points ex_engine ex_contributions) "dev" ∧
  all_holders_claim (combine_points ex_engine ex_contributions)
    ex_both_claim "dev" ∧
  ∃ res self',
    process_snapshot ex_engine ex_contributions ex_both_claim
      = Ok (res, self') ∧
    current_points res = combine_points ex_engine ex_contributions ∧
    pillar_totals res !! "dev" = Some (column_sum (current_points res) "dev") ∧
    column_sum (user_tokens res) "dev" = budget_of ex_engine ex_config.
Proof.
  split; [reflexivity|]. split; [by_evaluation|]. split; [by_evaluation|].
  apply C4_conservation; [reflexivity|by_evaluation..].
Defined.

(** ** Signs *)






(** ** Reachable states *)

(** A reachable engine keeps its configuration, and each row of its
    rollover state has exactly the configured pillars. *)
Lemma reachable_shape (total : Qc) (configs : gmap string PillarConfig)
    (self : EmissionSystem) :
  reachable total configs self →
  total_emissions self = total ∧
  pillar_configs self = configs ∧
  ∀ user row, rollover_points self !! user = Some row → dom row = dom configs.
Proof.
  induction 1 as [|self nc cd res self' _ (Htotal & Hconfigs & _) Hstep].
  { repeat split. intros user row. simpl. by rewrite lookup_empty. }
  destruct (process_snapshot_spec self nc cd) as (totals & ut & Hrun & _).
  rewrite Hrun in Hstep. injection Hstep as _ <-. simpl.
  split; [done|]. split; [done|]. intros user row Hrow.
  destruct (row_dom_fmap _ _ _ (update_rollover_dom _ cd)
              (update_rollover_cell _ cd) user row Hrow) as (r2 & H2 & ->).
  rewrite <- Hconfigs. by eapply combine_points_row_dom.
Qed.

(** C6. From any state reachable by [process_snapshot] calls, a call with
    empty [new_contributions] and empty [claim_decisions] leaves the
    rollover state unchanged, and the returned [pillar_totals] are the
    column sums of the prior rollover state. *)
Theorem C6_zero_input_step (total : Qc) (configs : gmap string PillarConfig)
    (self : EmissionSystem) :
  reachable total configs self →
  ∃ res self',
    process_snapshot self ∅ ∅ = Ok (res, self') ∧
    self' = self ∧
    rollover_points self' = rollover_points self ∧
    result_rollover_points res = rollover_points self ∧
    current_points res = rollover_points self ∧
    dom (pillar_totals res) = dom configs ∧
    ∀ pillar, pillar ∈ dom configs →
      pillar_totals res !! pillar
        = Some (column_sum (rollover_points self) pillar).
Proof.
  intros (_ & Hconfigs & Hshape)%reachable_shape.
  destruct (process_snapshot_spec self ∅ ∅)
    as (totals & ut & Hrun & Htot & _).
  assert (Hcp : combine_points self ∅ = rollover_points self).
  { apply points_eq.
    - rewrite combine_points_dom. unfold all_users.
      rewrite dom_empty_L. apply (right_id_L ∅ (∪)).
    - intros user pillar. rewrite combine_points_cell. unfold all_users.
      rewrite dom_empty_L, (right_id_L ∅ (∪)). unfold cell at 2.
      rewrite lookup_empty. simpl. rewrite Qcplus_0_r.
      unfold cell. destruct (rollover_points self !! user) as [row|] eqn:Hrow.
      + simpl. pose proof (Hshape user row Hrow) as Hd.
        rewrite <- Hconfigs in Hd.
        destruct (row !! pillar) as [v|] eqn:Hv; simpl.
        * rewrite decide_True; [done|]. rewrite <- Hd.
          split; apply elem_of_dom; eauto.
        * rewrite decide_False; [done|]. intros [_ Hp].
          rewrite <- Hd in Hp. apply elem_of_dom in Hp.
          rewrite Hv in Hp. by destruct Hp.
      + simpl. rewrite decide_False; [done|]. intros [Hu _].
        apply elem_of_dom in Hu. rewrite Hrow in Hu. by destruct Hu.  }
  assert (Hroll : update_rollover (combine_points self ∅) ∅
                  = rollover_points self).
  { rewrite Hcp. apply points_eq; [apply update_rollover_dom|].
    intros user pillar. rewrite update_rollover_cell.
    unfold claimed. rewrite lookup_empty. simpl. rewrite lookup_empty. simpl.
    by destruct (cell (rollover_points self) user pillar). }
  rewrite Hroll, Hcp in Hrun. rewrite Hcp in Htot.
  eexists _, _. split; [exact Hrun|]. simpl.
  split; [by destruct self|]. split; [done|]. split; [done|]. split; [done|].
  split.
  - rewrite <- Hconfigs. apply set_eq. intros p. rewrite elem_of_dom, Htot.
    case_decide; [by split; eauto|]. split; [by intros []|done].
  - intros pillar Hpillar. rewrite Htot, decide_True; [done|].
    by rewrite Hconfigs.
Qed.

Lemma ex_engine_after_reachable :
  reachable (Q2Qc 10000) {[ "dev" := ex_config ]} ex_engine_after.
Proof.
  destruct ex_deferred as (res & Hrun & _).
  exact (reachable_step _ _ _ _ _ _ _ (reachable_init _ _) Hrun).
Qed.

Lemma C6_witness :
  reachable (Q2Qc 10000) {[ "dev" := ex_config ]} ex_engine_after ∧
  ∃ res self',
    process_snapshot ex_engine_after ∅ ∅ = Ok (res, self') ∧
    self' = ex_engine_after ∧
    rollover_points self' = rollover_points ex_engine_after ∧
    result_rollover_points res = rollover_points ex_engine_after ∧
    current_points res = rollover_points ex_engine_after ∧
    dom (pillar_totals res) = dom ({[ "dev" := ex_config ]}
                                     : gmap string PillarConfig) ∧
    ∀ pillar, pillar ∈ dom ({[ "dev" := ex_config ]}
                              : gmap string PillarConfig) →
      pillar_totals res !! pillar
        = Some (column_sum (rollover_points ex_engine_after) pillar).
Proof.
  split; [exact ex_engine_after_reachable|].
  exact (C6_zero_input_step _ _ _ ex_engine_after_reachable).
Defined.

(** The zero-input step on the concrete engine: alice's 100 points stay. *)
Example ex_zero_input :
  ∃ res,
    process_snapshot ex_engine_after ∅ ∅ = Ok (res, ex_engine_after) ∧
    pillar_totals res !! "dev" = Some (Q2Qc 100).
Proof.
  assert (∃ res self',
    process_snapshot ex_engine_after ∅ ∅ = Ok (res, self') ∧
    self' = ex_engine_after ∧
    pillar_totals res !! "dev" = Some (Q2Qc 100))
    as (res & ? & Hrun & -> & ?); [|by eauto].
  eexists _, _. split; [vm_compute; reflexivity|]. split; by_evaluation.
Qed.

(** ** Further properties of [process_snapshot] *)






Lemma claimed_sum_users (cp : Points) (cd : Claims) (pillar : string) :
  claimed_sum cp cd pillar =
    Qc_sum ((λ user, if claimed cd user pillar
                     then default 0 (cell cp user pillar) else 0)
            <$> elements (dom cp)).
Proof.
  unfold claimed_sum. apply Qc_sum_keys.
  intros user row Hrow. by rewrite (cell_lookup _ _ _ _ Hrow).
Qed.

(** The payout of a configured pillar, written with the pillar's budget. *)
Lemma payout_configured (self : EmissionSystem) (totals : gmap string Qc)
    (cd : Claims) user pillar config points total :
  pillar_configs self !! pillar = Some config →
  totals !! pillar = Some total →
  payout totals (allocate_tokens self) cd user pillar points =
    if claimed cd user pillar
    then budget_of self config * share_of points total else 0.
Proof.
  intros Hconfig Htotal. unfold payout, budget_of.
  rewrite allocate_tokens_lookup, Hconfig, Htotal. simpl.
  by rewrite Qcmult_assoc.
Qed.

(** X1. What a pillar pays out is its budget times the fraction of the
    pillar's points held by claiming users: the share of users who do not
    claim is not handed to the others. *)
Theorem X1_payout_is_claimed_fraction (self : EmissionSystem) (nc : Points)
    (cd : Claims) (pillar : string) (config : PillarConfig) :
  pillar_configs self !! pillar = Some config →
  0 < column_sum (combine_points self nc) pillar →
  ∃ res self',
    process_snapshot self nc cd = Ok (res, self') ∧
    column_sum (user_tokens res) pillar =
      budget_of self config
      * (claimed_sum (current_points res) cd pillar
         / column_sum (current_points res) pillar).
Proof.
  intros Hconfig Hpos.
  assert (Hpillar : pillar ∈ dom (pillar_configs self))
    by (apply elem_of_dom; eauto).
  destruct (process_snapshot_spec self nc cd)
    as (totals & ut & Hrun & Htot & Hdom & Hcell).
  eexists _, _. split; [exact Hrun|]. simpl.
  set (cp := combine_points self nc) in *.
  set (T := column_sum cp pillar) in *.
  assert (HT : T ≠ 0).
  { intros HT. rewrite HT in Hpos. by apply Qclt_not_eq in Hpos. }
  assert (Htp : totals !! pillar = Some T) by (by rewrite Htot, decide_True).
  rewrite column_sum_users, Hdom, claimed_sum_users.
  rewrite (Qc_sum_ext _
    (λ user, (budget_of self config / T)
             * (if claimed cd user pillar
                then default 0 (cell cp user pillar) else 0))).
  - rewrite Qc_sum_scale. by field.
  - intros user _. rewrite Hcell.
    destruct (cell cp user pillar) as [points|]; simpl.
    + rewrite (payout_configured _ _ _ _ _ _ _ _ Hconfig Htp).
      unfold share_of. rewrite decide_True by done.
      destruct (claimed cd user pillar); by field.
    + destruct (claimed cd user pillar); by rewrite Qcmult_0_r.
Qed.

Lemma X1_witness :
  pillar_configs ex_engine !! "dev" = Some ex_config ∧
  0 < column_sum (combine_points ex_engine ex_contributions) "dev" ∧
  ∃ res self',
    process_snapshot ex_engine ex_contributions ex_bob_claims
      = Ok (res, self') ∧
    column_sum (user_tokens res) "dev" =
      budget_of ex_engine ex_config
      * (claimed_sum (current_points res) ex_bob_claims "dev"
         / column_sum (current_points res) "dev").
Proof.
  split; [reflexivity|]. split; [by_evaluation|].
  apply X1_payout_is_claimed_fraction; [reflexivity|by_evaluation].
Defined.





(** X4. What a user is paid for a pillar depends on the claim decisions
    only through that user's own decision for that pillar; the merged
    points and the pillar totals do not depend on the decisions at all. *)
Theorem X4_payout_ignores_other_claims (self : EmissionSystem) (nc : Points)
    (cd cd' : Claims) (user pillar : string) :
  claimed cd user pillar = claimed cd' user pillar →
  ∃ res self' res2 self2,
    process_snapshot self nc cd = Ok (res, self') ∧
    process_snapshot self nc cd' = Ok (res2, self2) ∧
    current_points res2 = current_points res ∧
    pillar_totals res2 = pillar_totals res ∧
    cell (user_tokens res2) user pillar = cell (user_tokens res) user pillar ∧
    cell (rollover_points self2) user pillar
      = cell (rollover_points self') user pillar.
Proof.
  intros Hsame.
  destruct (process_snapshot_spec self nc cd)
    as (totals & ut & Hrun & Htot & _ & Hcell).
  destruct (process_snapshot_spec self nc cd')
    as (totals' & ut' & Hrun' & Htot' & _ & Hcell').
  assert (totals' = totals) as ->.
  { apply map_eq. intros p. by rewrite Htot, Htot'. }
  eexists _, _, _, _. split; [exact Hrun|]. split; [exact Hrun'|]. simpl.
  split; [done|]. split; [done|]. split.
  - rewrite Hcell, Hcell'. unfold payout. by rewrite Hsame.
  - rewrite !update_rollover_cell. by rewrite Hsame.
Qed.

Lemma X4_witness :
  claimed ex_both_claim "bob" "dev" = claimed ex_bob_claims "bob" "dev" ∧
  ∃ res self' res2 self2,
    process_snapshot ex_engine ex_contributions ex_both_claim
      = Ok (res, self') ∧
    process_snapshot ex_engine ex_contributions ex_bob_claims
      = Ok (res2, self2) ∧
    current_points res2 = current_points res ∧
    pillar_totals res2 = pillar_totals res ∧
    cell (user_tokens res2) "bob" "dev" = cell (user_tokens res) "bob" "dev" ∧
    cell (rollover_points self2) "bob" "dev"
      = cell (rollover_points self') "bob" "dev".
Proof.
  split; [reflexivity|].
  apply X4_payout_ignores_other_claims. reflexivity.
Defined.

(** X5. Two consecutive periods: what a user holds in the second period is
    the second contribution alone after a claim in the first period, and
    the first period's merged points plus the second contribution
    otherwise. *)
Theorem X5_two_periods (self : EmissionSystem) (nc1 nc2 : Points)
    (cd1 cd2 : Claims) (user pillar : string) :
  user ∈ all_users self nc1 →
  pillar ∈ dom (pillar_configs self) →
  ∃ res1 self1 res2 self2 points1,
    process_snapshot self nc1 cd1 = Ok (res1, self1) ∧
    process_snapshot self1 nc2 cd2 = Ok (res2, self2) ∧
    cell (current_points res1) user pillar = Some points1 ∧
    cell (current_points res2) user pillar =
      Some ((if claimed cd1 user pillar then 0 else points1)
            + default 0 (cell nc2 user pillar)).
Proof.
  intros Huser Hpillar.
  destruct (process_snapshot_spec self nc1 cd1) as (t1 & ut1 & Hrun1 & _).
  set (self1 := {| total_emissions := total_emissions self;
                   pillar_configs := pillar_configs self;
                   rollover_points :=
                     update_rollover (combine_points self nc1) cd1 |}) in *.
  destruct (process_snapshot_spec self1 nc2 cd2) as (t2 & ut2 & Hrun2 & _).
  eexists _, _, _, _, _. split; [exact Hrun1|]. split; [exact Hrun2|]. simpl.
  split; [by rewrite combine_points_cell, decide_True|].
  rewrite combine_points_cell. rewrite decide_True.
  - simpl. rewrite update_rollover_cell, combine_points_cell.
    rewrite decide_True by done. simpl.
    by destruct (claimed cd1 user pillar).
  - split; [|done]. unfold all_users. simpl.
    rewrite update_rollover_dom, combine_points_dom. set_solver.
Qed.

Lemma X5_witness :
  "alice" ∈ all_users ex_engine ex_contributions ∧
  "dev" ∈ dom (pillar_configs ex_engine) ∧
  ∃ res1 self1 res2 self2 points1,
    process_snapshot ex_engine ex_contributions ex_bob_claims
      = Ok (res1, self1) ∧
    process_snapshot self1 ex_contributions_next ex_both_claim
      = Ok (res2, self2) ∧
    cell (current_points res1) "alice" "dev" = Some points1 ∧
    cell (current_points res2) "alice" "dev" =
      Some ((if claimed ex_bob_claims "alice" "dev" then 0 else points1)
            + default 0 (cell ex_contributions_next "alice" "dev")).
Proof.
  split; [by_evaluation|]. split; [by_evaluation|].
  apply X5_two_periods; by_evaluation.
Defined.

(** ** Rescaling the points *)

Lemma scale_points_cell (k : Qc) (m : Points) user pillar :
  cell (scale_points k m) user pillar = Qcmult k <$> cell m user pillar.
Proof.
  unfold cell, scale_points. rewrite lookup_fmap.
  destruct (m !! user) as [row|]; simpl; [|done]. by rewrite lookup_fmap.
Qed.

Lemma scale_points_dom (k : Qc) (m : Points) : dom (scale_points k m) = dom m.
Proof. unfold scale_points. apply dom_fmap_L. Qed.

Lemma scale_default (k : Qc) (o : option Qc) :
  default 0 (Qcmult k <$> o) = k * default 0 o.
Proof. destruct o; simpl; [done|by rewrite Qcmult_0_r]. Qed.

Lemma scale_column_sum (k : Qc) (m : Points) pillar :
  column_sum (scale_points k m) pillar = k * column_sum m pillar.
Proof.
  rewrite !column_sum_users, scale_points_dom, <- Qc_sum_scale.
  apply Qc_sum_ext. intros user _.
  by rewrite scale_points_cell, scale_default.
Qed.

Lemma scale_combine_points (k : Qc) (self : EmissionSystem) (nc : Points) :
  combine_points (scale_engine k self) (scale_points k nc)
    = scale_points k (combine_points self nc).
Proof.
  apply points_eq.
  - rewrite scale_points_dom, !combine_points_dom. unfold all_users. simpl.
    by rewrite !scale_points_dom.
  - intros user pillar.
    rewrite scale_points_cell, !combine_points_cell. unfold all_users. simpl.
    rewrite !scale_points_dom, !scale_points_cell, !scale_default.
    case_decide; simpl; [|done]. f_equal. ring.
Qed.

Lemma scale_update_rollover (k : Qc) (cp : Points) (cd : Claims) :
  update_rollover (scale_points k cp) cd
    = scale_points k (update_rollover cp cd).
Proof.
  apply points_eq.
  - by rewrite scale_points_dom, !update_rollover_dom, scale_points_dom.
  - intros user pillar.
    rewrite scale_points_cell, !update_rollover_cell, scale_points_cell.
    destruct (cell cp user pillar) as [points|]; simpl; [|done].
    destruct (claimed cd user pillar); [|done]. by rewrite Qcmult_0_r.
Qed.

Lemma scale_share_of (k points total : Qc) :
  0 < k → share_of (k * points) (k * total) = share_of points total.
Proof.
  intros Hk. unfold share_of.
  assert (k ≠ 0) as Hk0.
  { intros ->. by apply Qclt_not_eq in Hk. }
  destruct (decide (0 < total)) as [Hpos|Hneg].
  - rewrite decide_True by (by apply Qcmult_pos_pos).
    field. split; [|done]. intros ->. by apply Qclt_not_eq in Hpos.
  - rewrite decide_False; [done|]. intros Hpos. apply Hneg.
    apply (Qcmult_lt_mono_pos_l 0 total k Hk). by rewrite Qcmult_0_r.
Qed.

(** X6. Only relative points matter: multiplying the rollover state and
    the new contributions by a positive factor leaves every payout
    unchanged, and multiplies the merged points, the pillar totals and the
    new rollover state by that factor. *)
Theorem X6_payouts_scale_invariant (k : Qc) (self : EmissionSystem)
    (nc : Points) (cd : Claims) :
  0 < k →
  ∃ res self' res_k self_k,
    process_snapshot self nc cd = Ok (res, self') ∧
    process_snapshot (scale_engine k self) (scale_points k nc) cd
      = Ok (res_k, self_k) ∧
    user_tokens res_k = user_tokens res ∧
    current_points res_k = scale_points k (current_points res) ∧
    pillar_totals res_k = Qcmult k <$> pillar_totals res ∧
    rollover_points self_k = scale_points k (rollover_points self').
Proof.
  intros Hk.
  destruct (process_snapshot_spec self nc cd)
    as (totals & ut & Hrun & Htot & Hdom & Hcell).
  destruct (process_snapshot_spec (scale_engine k self) (scale_points k nc) cd)
    as (totals_k & ut_k & Hrun_k & Htot_k & Hdom_k & Hcell_k).
  rewrite scale_combine_points in Hrun_k, Htot_k, Hdom_k, Hcell_k.
  rewrite scale_update_rollover in Hrun_k.
  assert (Htotals : totals_k = Qcmult k <$> totals).
  { apply map_eq. intros p. rewrite lookup_fmap, Htot_k, Htot. simpl.
    case_decide; simpl; [|done]. by rewrite scale_column_sum. }
  eexists _, _, _, _. split; [exact Hrun|]. split; [exact Hrun_k|]. simpl.
  split; [|done].
  apply points_eq; [by rewrite Hdom_k, Hdom, scale_points_dom|].
  intros user pillar. rewrite Hcell_k, Hcell, scale_points_cell.
  destruct (cell (combine_points self nc) user pillar) as [points|]; [|done].
  simpl. f_equal. unfold payout.
  destruct (claimed cd user pillar); [|done]. f_equal.
  rewrite Htotals, lookup_fmap, scale_default. by apply scale_share_of.
Qed.

Lemma X6_witness :
  0 < Q2Qc 3 ∧
  ∃ res self' res_k self_k,
    process_snapshot ex_engine_after ex_contributions ex_both_claim
      = Ok (res, self') ∧
    process_snapshot (scale_engine (Q2Qc 3) ex_engine_after)
        (scale_points (Q2Qc 3) ex_contributions) ex_both_claim
      = Ok (res_k, self_k) ∧
    user_tokens res_k = user_tokens res ∧
    current_points res_k = scale_points (Q2Qc 3) (current_points res) ∧
    pillar_totals res_k = Qcmult (Q2Qc 3) <$> pillar_totals res ∧
    rollover_points self_k = scale_points (Q2Qc 3) (rollover_points self').
Proof.
  split; [by_evaluation|].
  apply X6_payouts_scale_invariant. by_evaluation.
Defined.

(** ** The tabular upload *)

Lemma for_each_app {A S : Type} (body : A → S → Exc S) xs ys s :
  for_each (xs ++ ys) body s = for_each xs body s ≫= for_each ys body.
Proof.
  revert s. induction xs as [|x xs IH]; intros s; [done|].
  simpl. destruct (body x s) as [s'|e]; simpl; [apply IH|done].
Qed.

Lemma Qc_sum_snoc xs x : Qc_sum (xs ++ [x]) = Qc_sum xs + x.
Proof.
  induction xs as [|y xs IH]; simpl; [ring|]. rewrite IH. ring.
Qed.

(** One row, processed on tables that have the same users. *)
Lemma upload_row_ok (row : CsvRow) (c : Points) (d : Claims) :
  dom c = dom d →
  upload_row row (c, d) =
    Ok (<[row_user row :=
            <[row_pillar row :=
                default 0 (cell c (row_user row) (row_pillar row))
                + row_points row]> (default ∅ (c !! row_user row))]> c,
        <[row_user row :=
            <[row_pillar row := parse_claim (row_claim row)]>
              (default ∅ (d !! row_user row))]> d).
Proof.
  intros Hdom. unfold upload_row, cell.
  destruct (c !! row_user row) as [held|] eqn:Hc.
  - assert (is_Some (d !! row_user row)) as [decisions Hd].
    { apply elem_of_dom. rewrite <- Hdom. apply elem_of_dom. eauto. }
    rewrite decide_False by done.
    rewrite (getitem_Some _ _ _ Hc), (getitem_Some _ _ _ Hd). simpl.
    by rewrite Hd.
  - assert (d !! row_user row = None) as Hd.
    { apply not_elem_of_dom. rewrite <- Hdom. by apply not_elem_of_dom. }
    rewrite decide_True by done.
    rewrite !(getitem_Some _ _ ∅) by apply lookup_insert_eq. simpl.
    by rewrite !insert_insert_eq, Hd.
Qed.

Lemma rows_for_snoc df row user pillar :
  rows_for (df ++ [row]) user pillar =
    rows_for df user pillar
    ++ (if decide (row_user row = user ∧ row_pillar row = pillar)
        then [row] else []).
Proof.
  unfold rows_for. by rewrite filter_app.
Qed.

(** The upload never raises; it sums the points of the rows of a user and
    pillar and keeps the claim of the last such row. *)
Lemma csv_upload_spec (df : list CsvRow) :
  ∃ c d,
    csv_upload df = Ok (c, d) ∧
    dom c = dom d ∧
    (∀ user, user ∈ dom c ↔ ∃ row, row ∈ df ∧ row_user row = user) ∧
    (∀ user pillar,
       cell c user pillar =
         match rows_for df user pillar with
         | [] => None
         | rows => Some (Qc_sum (row_points <$> rows))
         end) ∧
    (∀ user pillar,
       cell d user pillar =
         (λ row, parse_claim (row_claim row))
           <$> last (rows_for df user pillar)).
Proof.
  unfold csv_upload.
  induction df as [|row df (c & d & Hrun & Hdom & Husers & Hc & Hd)]
    using rev_ind.
  { exists ∅, ∅. split; [done|]. split; [done|]. split; [|done].
    intros user. rewrite dom_empty_L. split; [set_solver|].
    intros (row & Hin & _). by apply elem_of_nil in Hin. }
  rewrite for_each_app, Hrun. cbn [mbind Exc_bind for_each].
  rewrite (upload_row_ok row c d Hdom). cbn [mbind Exc_bind].
  eexists _, _. split; [done|]. split; [|split; [|split]].
  - by rewrite !dom_insert_L, Hdom.
  - intros user. rewrite dom_insert_L, elem_of_union, elem_of_singleton, Husers.
    split.
    + intros [->|(r & Hin & Hr)].
      * exists row. split; [|done]. apply elem_of_app. right. by left.
      * exists r. split; [|done]. apply elem_of_app. by left.
    + intros (r & [Hin|Hin%list_elem_of_singleton]%elem_of_app & Hr).
      * right. eauto.
      * left. by subst.
  - intros user pillar. rewrite rows_for_snoc. unfold cell at 1.
    destruct (decide (row_user row = user)) as [<-|Hu].
    + rewrite lookup_insert_eq. simpl.
      destruct (decide (row_pillar row = pillar)) as [<-|Hp].
      * rewrite lookup_insert_eq, decide_True by done.
        rewrite Hc.
        destruct (rows_for df (row_user row) (row_pillar row)) as [|r rows].
        { simpl. f_equal. ring. }
        change ((r :: rows) ++ [row]) with (r :: (rows ++ [row])).
        cbn [default]. f_equal.
        rewrite !fmap_cons, fmap_app, !Qc_sum_cons.
        change (row_points <$> [row]) with [row_points row].
        rewrite Qc_sum_snoc. unfold id. ring.
      * rewrite lookup_insert_ne by done.
        rewrite decide_False by (by intros [_ ?]).
        rewrite app_nil_r, <- Hc. unfold cell.
        by destruct (c !! row_user row).
    + rewrite lookup_insert_ne by done.
      rewrite decide_False by (by intros [? _]).
      rewrite app_nil_r. apply Hc.
  - intros user pillar. rewrite rows_for_snoc. unfold cell at 1.
    destruct (decide (row_user row = user)) as [<-|Hu].
    + rewrite lookup_insert_eq. simpl.
      destruct (decide (row_pillar row = pillar)) as [<-|Hp].
      * rewrite lookup_insert_eq, decide_True by done.
        by rewrite last_snoc.
      * rewrite lookup_insert_ne by done.
        rewrite decide_False by (by intros [_ ?]).
        rewrite app_nil_r, <- Hd. unfold cell.
        by destruct (d !! row_user row).
    + rewrite lookup_insert_ne by done.
      rewrite decide_False by (by intros [? _]).
      rewrite app_nil_r. apply Hd.
Qed.


(** X8. Several rows for the same user and pillar are added up: the
    uploaded points of a user and pillar are the sum of the points of all
    their rows. *)
Theorem X8_upload_sums_points (df : list CsvRow) (user pillar : string) :
  rows_for df user pillar ≠ [] →
  ∃ contributions claim_decisions,
    csv_upload df = Ok (contributions, claim_decisions) ∧
    cell contributions user pillar =
      Some (Qc_sum (row_points <$> rows_for df user pillar)).
Proof.
  intros Hrows.
  destruct (csv_upload_spec df) as (c & d & Hrun & _ & _ & Hc & _).
  exists c, d. split; [done|]. rewrite Hc.
  by destruct (rows_for df user pillar).
Qed.

Lemma X8_witness :
  rows_for ex_table "alice" "dev" ≠ [] ∧
  ∃ contributions claim_decisions,
    csv_upload ex_table = Ok (contributions, claim_decisions) ∧
    cell contributions "alice" "dev" =
      Some (Qc_sum (row_points <$> rows_for ex_table "alice" "dev")).
Proof.
  split; [by vm_compute|].
  apply X8_upload_sums_points. by vm_compute.
Defined.

(** X9. The claim decisions are not added up: among several rows for the
    same user and pillar the claim cell of the last one decides, and an
    earlier "yes" is overwritten. *)
Theorem X9_upload_last_claim_wins (df : list CsvRow) (user pillar : string)
    (row : CsvRow) :
  last (rows_for df user pillar) = Some row →
  ∃ contributions claim_decisions,
    csv_upload df = Ok (contributions, claim_decisions) ∧
    cell claim_decisions user pillar = Some (parse_claim (row_claim row)) ∧
    claimed claim_decisions user pillar = parse_claim (row_claim row).
Proof.
  intros Hlast.
  destruct (csv_upload_spec df) as (c & d & Hrun & _ & _ & _ & Hd).
  exists c, d. split; [done|].
  assert (cell d user pillar = Some (parse_claim (row_claim row))) as Hcell
    by (by rewrite Hd, Hlast).
  split; [done|]. unfold claimed. unfold cell in Hcell.
  destruct (d !! user) as [decisions|]; [|done]. simpl in *. by rewrite Hcell.
Qed.

Lemma X9_witness :
  last (rows_for ex_table_reordered "alice" "dev")
    = Some {| row_user := "alice"; row_pillar := "dev";
              row_points := Q2Qc 60; row_claim := "no" |} ∧
  ∃ contributions claim_decisions,
    csv_upload ex_table_reordered = Ok (contributions, claim_decisions) ∧
    cell claim_decisions "alice" "dev" = Some (parse_claim "no") ∧
    claimed claim_decisions "alice" "dev" = parse_claim "no".
Proof.
  split; [reflexivity|].
  exact (X9_upload_last_claim_wins ex_table_reordered "alice" "dev" _
           eq_refl).
Defined.



(** The two orders of the concrete table give alice the same 100 points but
    opposite claim decisions. *)
Example ex_upload_orders :
  ∃ c d d',
    csv_upload ex_table = Ok (c, d) ∧
    csv_upload ex_table_reordered = Ok (c, d') ∧
    cell c "alice" "dev" = Some (Q2Qc 100) ∧
    claimed d "alice" "dev" = true ∧
    claimed d' "alice" "dev" = false.
Proof.
  eexists _, _, _. split; [vm_compute; reflexivity|].
  split; [vm_compute; reflexivity|]. repeat split; by_evaluation.
Qed.

(** ** Reading a claim cell *)

Lemma lstrip_spec (s : string) :
  ∃ l, s = l +:+ lstrip s ∧ all_space l = true.
Proof.
  induction s as [|c s (l & Hs & Hl)]; [by exists ""|]. simpl.
  destruct (isspace c) eqn:Hc.
  - exists (String c l). simpl. rewrite Hc, Hl. split; [|done].
    exact (f_equal (String c) Hs).
  - by exists "".
Qed.

Lemma rstrip_spec (s : string) :
  ∃ r, s = rstrip s +:+ r ∧ all_space r = true.
Proof.
  induction s as [|c s (r & Hs & Hr)]; [by exists ""|]. simpl.
  destruct (rstrip s) as [|c' s'] eqn:Hstrip.
  - destruct (isspace c) eqn:Hc.
    + exists (String c r). simpl in *. rewrite Hc, Hr. split; [|done].
      exact (f_equal (String c) Hs).
    + exists r. split; [|done]. exact (f_equal (String c) Hs).
  - exists r. split; [|done]. exact (f_equal (String c) Hs).
Qed.

Lemma lstrip_app_space (l t : string) :
  all_space l = true → lstrip (l +:+ t) = lstrip t.
Proof.
  induction l as [|c l IH]; [done|]. simpl.
  intros [Hc Hl]%andb_true_iff. rewrite Hc. by apply IH.
Qed.

Lemma rstrip_space (r : string) : all_space r = true → rstrip r = "".
Proof.
  induction r as [|c r IH]; [done|]. simpl.
  intros [Hc Hr]%andb_true_iff. by rewrite (IH Hr), Hc.
Qed.

Lemma lower_char_y c : lower_char c = "y"%char ↔ c = "y"%char ∨ c = "Y"%char.
Proof.
  split; [|by intros [->| ->]].
  destruct c as [[] [] [] [] [] [] [] []]; vm_compute; intros H;
    first [discriminate H | by left | by right].
Qed.

Lemma lower_char_e c : lower_char c = "e"%char ↔ c = "e"%char ∨ c = "E"%char.
Proof.
  split; [|by intros [->| ->]].
  destruct c as [[] [] [] [] [] [] [] []]; vm_compute; intros H;
    first [discriminate H | by left | by right].
Qed.

Lemma lower_char_s c : lower_char c = "s"%char ↔ c = "s"%char ∨ c = "S"%char.
Proof.
  split; [|by intros [->| ->]].
  destruct c as [[] [] [] [] [] [] [] []]; vm_compute; intros H;
    first [discriminate H | by left | by right].
Qed.

(** X11. A claim cell counts as a claim exactly when it reads "yes" in any
    mix of upper and lower case, with any whitespace before and after;
    every other cell ("y", "true", "1", "yes!") is a refusal. *)
Theorem X11_claim_cell_reading (cell : string) :
  parse_claim cell = true ↔
  ∃ l r y e s,
    cell = l +:+ String y (String e (String s r)) ∧
    all_space l = true ∧ all_space r = true ∧
    (y = "y" ∨ y = "Y")%char ∧
    (e = "e" ∨ e = "E")%char ∧
    (s = "s" ∨ s = "S")%char.
Proof.
  unfold parse_claim. rewrite bool_decide_eq_true. split.
  - intros Hyes.
    destruct (lstrip_spec cell) as (l & Hcell & Hl).
    destruct (rstrip_spec (lstrip cell)) as (r & Hrest & Hr).
    fold (strip cell) in Hrest.
    destruct (strip cell) as [|y [|e [|s [|]]]]; try done.
    simpl in Hyes. injection Hyes as Hy He Hs.
    exists l, r, y, e, s. rewrite Hcell at 1. rewrite Hrest. simpl.
    split; [done|]. split; [done|]. split; [done|].
    by rewrite <- lower_char_y, <- lower_char_e, <- lower_char_s.
  - intros (l & r & y & e & s & -> & Hl & Hr & Hy & He & Hs).
    unfold strip. rewrite (lstrip_app_space _ _ Hl).
    assert (lstrip (String y (String e (String s r)))
            = String y (String e (String s r))) as ->.
    { by destruct Hy as [-> | ->]. }
    cbn [rstrip]. rewrite (rstrip_space r Hr).
    destruct Hy as [-> | ->], He as [-> | ->], Hs as [-> | ->]; reflexivity.
Qed.

(** Some claim cells and how they are read. *)
Example ex_claim_cells :
  parse_claim "yes" = true ∧ parse_claim " YES " = true ∧
  parse_claim "Yes" = true ∧ parse_claim "y" = false ∧
  parse_claim "true" = false ∧ parse_claim "1" = false ∧
  parse_claim "yes!" = false ∧ parse_claim "" = false.
Proof. by vm_compute. Qed.

(** ** The export *)

Lemma foldl_snoc_fmap {A B : Type} (g : A → B) (f : list B → A → list B)
    (xs : list A) (acc : list B) :
  (∀ acc x, f acc x = acc ++ [g x]) →
  foldl f acc xs = acc ++ (g <$> xs).
Proof.
  intros Hf. revert acc. induction xs as [|x xs IH]; intros acc; simpl.
  - by rewrite app_nil_r.
  - rewrite IH, Hf. by rewrite <- app_assoc.
Qed.

Lemma output_rows_acc (l : list (string * gmap string Qc))
    (acc : list OutputRow) :
  foldl (λ output_rows '(user, tokens),
    foldl (λ output_rows '(pillar, token_amt),
      output_rows ++ [{| out_user := user;
                         out_pillar := pillar;
                         out_tokens := token_amt |}])
    output_rows (items tokens)) acc l =
  acc ++ (l ≫= λ '(user, tokens),
            (λ '(pillar, token_amt),
               {| out_user := user; out_pillar := pillar;
                  out_tokens := token_amt |})
            <$> items tokens).
Proof.
  revert acc. induction l as [|[user tokens] l IH]; intros acc.
  - simpl. by rewrite app_nil_r.
  - cbn [foldl]. rewrite IH, bind_cons, app_assoc. f_equal.
    apply foldl_snoc_fmap. by intros acc' [pillar t].
Qed.

(** The export lists the cells of the table, user by user. *)
Lemma output_rows_bind (ut : Points) :
  output_rows ut =
    items ut ≫= λ '(user, tokens),
      (λ '(pillar, token_amt),
         {| out_user := user; out_pillar := pillar; out_tokens := token_amt |})
      <$> items tokens.
Proof. unfold output_rows. by rewrite output_rows_acc. Qed.

Lemma elem_of_output_rows (ut : Points) (row : OutputRow) :
  row ∈ output_rows ut ↔
  cell ut (out_user row) (out_pillar row) = Some (out_tokens row).
Proof.
  rewrite output_rows_bind, list_elem_of_bind. unfold cell. split.
  - intros ([user tokens] & Hrow & Hut%elem_of_map_to_list).
    apply list_elem_of_fmap in Hrow as ([pillar t] & -> & Ht).
    apply elem_of_map_to_list in Ht. simpl. by rewrite Hut.
  - destruct row as [user pillar t]. simpl.
    destruct (ut !! user) as [tokens|] eqn:Hut; [|done]. simpl. intros Ht.
    exists (user, tokens). split; [|by apply elem_of_map_to_list].
    apply list_elem_of_fmap. exists (pillar, t).
    split; [done|by apply elem_of_map_to_list].
Qed.

(** X12. The export has one row for each cell of [user_tokens] and nothing
    else: a row is exported exactly when its tokens are the entry of its
    user and pillar, and no row is exported twice. *)
Theorem X12_export_rows (ut : Points) :
  (∀ row, row ∈ output_rows ut ↔
          cell ut (out_user row) (out_pillar row) = Some (out_tokens row)) ∧
  NoDup (output_rows ut) ∧
  (∀ r1 r2, r1 ∈ output_rows ut → r2 ∈ output_rows ut →
     out_user r1 = out_user r2 → out_pillar r1 = out_pillar r2 → r1 = r2).
Proof.
  split; [apply elem_of_output_rows|]. split.
  - rewrite output_rows_bind. apply NoDup_bind.
    + intros [u1 t1] [u2 t2] row Hu1%elem_of_map_to_list
        Hu2%elem_of_map_to_list Hr1 Hr2.
      apply list_elem_of_fmap in Hr1 as ([p1 x1] & -> & _).
      apply list_elem_of_fmap in Hr2 as ([p2 x2] & [= -> _ _] & _).
      by simplify_eq.
    + intros [user tokens] _. apply NoDup_fmap_2_strong.
      * intros [p1 x1] [p2 x2] _ _. by intros [= -> ->].
      * apply NoDup_map_to_list.
    + apply NoDup_map_to_list.
  - intros [u1 p1 t1] [u2 p2 t2] H1%elem_of_output_rows H2%elem_of_output_rows.
    simpl in *. intros <- <-. rewrite H1 in H2. by injection H2 as ->.
Qed.

Lemma length_bind_const {A B : Type} (f : A → list B) (l : list A) (n : nat) :
  (∀ x, x ∈ l → length (f x) = n) → length (l ≫= f) = (length l * n)%nat.
Proof.
  induction l as [|x l IH]; intros Hf; [done|].
  rewrite bind_cons, length_app, IH, (Hf x); [simpl; lia|by left|].
  intros y Hy. apply Hf. by right.
Qed.

(** X13. After [process_snapshot] the export has exactly (number of users
    of the snapshot) times (number of configured pillars) rows; with no
    pillar configured nothing is exported, however many users there are. *)
Theorem X13_export_size (self : EmissionSystem) (nc : Points) (cd : Claims) :
  ∃ res self',
    process_snapshot self nc cd = Ok (res, self') ∧
    length (output_rows (user_tokens res))
      = (size (all_users self nc) * size (pillar_configs self))%nat ∧
    (pillar_configs self = ∅ → output_rows (user_tokens res) = []).
Proof.
  destruct (process_snapshot_spec self nc cd)
    as (totals & ut & Hrun & _ & Hdom & Hcell).
  rewrite combine_points_dom in Hdom.
  assert (Hrows : ∀ user tokens, ut !! user = Some tokens →
                    dom tokens = dom (pillar_configs self)).
  { intros user tokens Hut.
    destruct (row_dom_fmap ut (combine_points self nc) _
                ltac:(by rewrite combine_points_dom) Hcell user tokens Hut)
      as (r2 & H2 & ->).
    by eapply combine_points_row_dom. }
  eexists _, _. split; [exact Hrun|]. simpl.
  assert (length (output_rows ut)
          = (size (all_users self nc) * size (pillar_configs self))%nat) as Hlen.
  { rewrite output_rows_bind.
    rewrite (length_bind_const _ _ (size (pillar_configs self))).
    - unfold items.
      by rewrite length_map_to_list, <- Hdom, size_dom.
    - intros [user tokens] Hut%elem_of_map_to_list.
      rewrite length_fmap. unfold items. rewrite length_map_to_list.
      rewrite <- !(size_dom (D := gset string)). f_equal.
      by apply (Hrows user). }
  split; [done|]. intros Hempty. apply nil_length_inv.
  rewrite Hlen, Hempty, map_size_empty. lia.
Qed.

(** ** From the uploaded table to the export *)






(** The export of the concrete table: alice's two rows count as 100 points
    out of 400 and her last row claims, so she is paid 625 tokens. *)
Example ex_main_csv :
  ∃ out rollover,
    main_csv (Q2Qc 10000) {[ "dev" := ex_config ]} ex_table
      = Ok (out, rollover) ∧
    {| out_user := "alice"; out_pillar := "dev"; out_tokens := Q2Qc 625 |}
      ∈ out ∧
    {| out_user := "bob"; out_pillar := "dev"; out_tokens := Q2Qc 1875 |}
      ∈ out ∧
    length out = 2%nat.
Proof.
  eexists _, _. split; [vm_compute; reflexivity|]. repeat split; by_evaluation.
Qed.
